(** * GAZE-RECORDER-REACT: a shallow embedding of the recorder core

    The development follows the source files:
    - [Js]              the fragment of JavaScript the code relies on
                        (numbers, Math.round, isFinite, template strings,
                        objects as ordered key/value lists);
    - [GazeRecorder]    src/GazeRecorder.jsx (CSV export, calibration,
                        gaze listener, fixed-rate sampler);
    - [App]             the application shell with its own CSV export;
    - [AudioRecorder]   the useAudioRecorder hook.

    Numbers are modelled as exact rationals extended with NaN and the two
    infinities.  The division behind the sampler period is rounded to
    binary64 as the machine rounds it, since the period depends on the
    rounding; the other operations are kept exact. *)

From Stdlib Require Import ZArith QArith Qabs Qround Qpower Lqa List Bool Lia.
From Stdlib Require Import Ascii String DecimalString.
Import ListNotations.

Local Open Scope Z_scope.

(* ================================================================== *)
(** ** JavaScript values used by the program *)
(* ================================================================== *)

Module Js.

(** A JavaScript number: a finite value, NaN, or a signed infinity. *)
Inductive number : Type :=
| Fin (q : Q)
| NaN
| PosInf
| NegInf.

(** Global isFinite on a number. *)
Definition isFinite (n : number) : bool :=
  match n with
  | Fin _ => true
  | _ => false
  end.

(** Math.round on a finite value: nearest integer, ties towards +infinity. *)
Definition round (q : Q) : Z := Qfloor (q + (1 # 2))%Q.

(** Math.round on any number. *)
Definition Math_round (n : number) : number :=
  match n with
  | Fin q => Fin (inject_Z (round q))
  | other => other
  end.

(** Math.min and Math.max on two numbers (NaN is contagious). *)
Definition Math_min (a b : number) : number :=
  match a, b with
  | NaN, _ | _, NaN => NaN
  | NegInf, _ | _, NegInf => NegInf
  | PosInf, x | x, PosInf => x
  | Fin p, Fin q => if Qle_bool p q then Fin p else Fin q
  end.

Definition Math_max (a b : number) : number :=
  match a, b with
  | NaN, _ | _, NaN => NaN
  | PosInf, _ | _, PosInf => PosInf
  | NegInf, x | x, NegInf => x
  | Fin p, Fin q => if Qle_bool p q then Fin q else Fin p
  end.

(** Subtraction and division of numbers. *)
Definition sub (a b : number) : number :=
  match a, b with
  | NaN, _ | _, NaN => NaN
  | PosInf, PosInf | NegInf, NegInf => NaN
  | PosInf, _ | _, NegInf => PosInf
  | NegInf, _ | _, PosInf => NegInf
  | Fin p, Fin q => Fin (p - q)%Q
  end.

Definition Qsign_pos (q : Q) : bool := negb (Qle_bool q 0%Q).
Definition Qis_zero (q : Q) : bool := Qeq_bool q 0%Q.

Definition div (a b : number) : number :=
  match a, b with
  | NaN, _ | _, NaN => NaN
  | Fin p, Fin q =>
      if Qis_zero q then
        (if Qis_zero p then NaN else if Qsign_pos p then PosInf else NegInf)
      else Fin (p / q)%Q
  | Fin _, _ => Fin 0%Q
  | PosInf, Fin q => if Qle_bool 0%Q q then PosInf else NegInf
  | NegInf, Fin q => if Qle_bool 0%Q q then NegInf else PosInf
  | _, _ => NaN
  end.

(** *** Rounding to binary64 *)

(** 2 to the power e, for any integer e. *)
Definition pow2 (e : Z) : Q :=
  match e with
  | Zneg p => 1 # (2 ^ p)
  | _ => inject_Z (2 ^ e)
  end.

(** The binade of the positive rational n/d: the e with
    2^e <= n/d < 2^(e+1). *)
Definition binade (n d : positive) : Z :=
  let e := Z.log2 (Zpos n) - Z.log2 (Zpos d) in
  if Qle_bool (pow2 e) (Zpos n # d) then e else e - 1.

(** The integer nearest to q, the even one when q lies half way. *)
Definition nearest_even (q : Q) : Z :=
  let f := Qfloor q in
  match (q - inject_Z f ?= 1 # 2)%Q with
  | Lt => f
  | Gt => f + 1
  | Eq => if Z.even f then f else f + 1
  end.

(** The binary64 number nearest to the positive rational n/d, ties to the
    even significand: 53 significant bits, the smallest unit 2^-1074,
    Infinity from 2^1024 on. *)
Definition binary64_pos (n d : positive) : number :=
  let e := binade n d in
  let x := Z.max (e - 52) (-1074) in
  let m := nearest_even ((Zpos n # d) / pow2 x) in
  if (1024 <=? e) || ((x =? 971) && (m =? 2 ^ 53)) then PosInf
  else Fin (inject_Z m * pow2 x).

Definition neg (n : number) : number :=
  match n with
  | Fin q => Fin (- q)
  | PosInf => NegInf
  | NegInf => PosInf
  | NaN => NaN
  end.

(** The result of one binary64 operation whose exact value is q. *)
Definition binary64 (q : Q) : number :=
  match Qnum q with
  | Z0 => Fin 0
  | Zpos n => binary64_pos n (Qden q)
  | Zneg n => neg (binary64_pos n (Qden q))
  end.

(** q is a binary64 number: rounding leaves it as it is. *)
Definition is_binary64 (q : Q) : bool :=
  match binary64 q with
  | Fin y => Qeq_bool y q
  | _ => false
  end.

(** a / b as the machine computes it: the exact quotient, rounded. *)
Definition div64 (a b : number) : number :=
  match div a b with
  | Fin q => binary64 q
  | other => other
  end.

(** The double-quote character and the line feed, by code. *)
Definition dq : ascii := ascii_of_nat 34.
Definition lf : ascii := ascii_of_nat 10.
Definition comma : ascii := ascii_of_nat 44.

Definition str1 (c : ascii) : string := String c EmptyString.

(** Decimal rendering of an integer. *)
Definition Z_to_string (z : Z) : string :=
  NilZero.string_of_int (Z.to_int z).

(** A value stored in an exported row.  Numbers stored in rows are always
    results of Math.round or integer literals, so a numeric value is an
    integer, NaN or an infinity.  The last two are what a property read
    finds on Object.prototype: a built-in function, given by its name, and
    the prototype object itself. *)
Inductive value : Type :=
| VUndefined
| VNull
| VBool (b : bool)
| VStr (s : string)
| VInt (z : Z)
| VNaN
| VInf (negative : bool)
| VFunction (name : string)
| VObject.

(** A number that came out of Math.round, as a row value. *)
Definition rounded_value (n : number) : value :=
  match Math_round n with
  | Fin q => VInt (Qfloor q)
  | NaN => VNaN
  | PosInf => VInf false
  | NegInf => VInf true
  end.

(** String(v).  A built-in function is printed on one line, as V8 and
    JavaScriptCore print it. *)
Definition String_ (v : value) : string :=
  match v with
  | VUndefined => "undefined"
  | VNull => "null"
  | VBool true => "true"
  | VBool false => "false"
  | VStr s => s
  | VInt z => Z_to_string z
  | VNaN => "NaN"
  | VInf false => "Infinity"
  | VInf true => "-Infinity"
  | VFunction name => "function " ++ name ++ "() { [native code] }"
  | VObject => "[object Object]"
  end%string.

(** v == null holds of null and undefined only. *)
Definition loosely_null (v : value) : bool :=
  match v with
  | VUndefined | VNull => true
  | _ => false
  end.

(** The regular expression [,dq lf] tested against a string: some
    character is a comma, a double quote or a line feed. *)
Definition is_special (c : ascii) : bool :=
  Ascii.eqb c comma || Ascii.eqb c dq || Ascii.eqb c lf.

Fixpoint test_special (s : string) : bool :=
  match s with
  | EmptyString => false
  | String c rest => is_special c || test_special rest
  end.

(** s.replace(/dq/g, dq dq): every double quote is doubled. *)
Fixpoint double_quotes (s : string) : string :=
  match s with
  | EmptyString => EmptyString
  | String c rest =>
      if Ascii.eqb c dq
      then String dq (String dq (double_quotes rest))
      else String c (double_quotes rest)
  end.

(** An object as the ordered list of its own enumerable properties. *)
Definition object : Type := list (string * value).

Definition Object_keys (o : object) : list string := map fst o.

(** The own property k of o: its first binding, if there is one. *)
Fixpoint getOwn (o : object) (k : string) : option value :=
  match o with
  | [] => None
  | (k', v) :: rest => if String.eqb k' k then Some v else getOwn rest k
  end.

(** The members of Object.prototype, which every row inherits: the
    constructor, the built-in methods, and the __proto__ accessor, whose
    getter yields the prototype itself. *)
Definition Object_prototype : object :=
  [ ("constructor", VFunction "Object");
    ("__defineGetter__", VFunction "__defineGetter__");
    ("__defineSetter__", VFunction "__defineSetter__");
    ("hasOwnProperty", VFunction "hasOwnProperty");
    ("__lookupGetter__", VFunction "__lookupGetter__");
    ("__lookupSetter__", VFunction "__lookupSetter__");
    ("isPrototypeOf", VFunction "isPrototypeOf");
    ("propertyIsEnumerable", VFunction "propertyIsEnumerable");
    ("toString", VFunction "toString");
    ("valueOf", VFunction "valueOf");
    ("__proto__", VObject);
    ("toLocaleString", VFunction "toLocaleString") ]%string.

(** o[k]: the own property k, else the member k of Object.prototype, else
    undefined. *)
Definition get (o : object) (k : string) : value :=
  match getOwn o k with
  | Some v => v
  | None =>
      match getOwn Object_prototype k with
      | Some v => v
      | None => VUndefined
      end
  end.

(** Array.prototype.join on strings. *)
Definition join (sep : string) (parts : list string) : string :=
  String.concat sep parts.

(** A Set of strings with its insertion order: membership, and
    Set.prototype.add. *)
Definition mem (k : string) (s : list string) : bool :=
  existsb (String.eqb k) s.

Definition set_add (k : string) (s : list string) : list string :=
  if mem k s then s else s ++ [k].

End Js.

(* ================================================================== *)
(** ** CSV export of the application shell *)
(* ================================================================== *)

Module App.
Import Js.

(** csvEscape of the application shell. *)
Definition csvEscape (v : value) : string :=
  if loosely_null v then EmptyString
  else
    let s := String_ v in
    if test_special s
    then (str1 dq ++ double_quotes s ++ str1 dq)%string
    else s.

(** The header of downloadCsv: every key of every row is added to a Set,
    rows in order, keys in the order of Object.keys. *)
Definition csvHeader (rows : list object) : list string :=
  fold_left (fun headerSet r => fold_left (fun hs k => set_add k hs) (Object_keys r) headerSet)
            rows [].

Definition csvLines (rows : list object) : list string :=
  let header := csvHeader rows in
  join (str1 comma) header
    :: map (fun r => join (str1 comma) (map (fun k => csvEscape (get r k)) header)) rows.

(** downloadCsv: nothing happens for an empty array; otherwise the file
    name and the text of the downloaded blob. *)
Definition downloadCsv (filename : string) (rows : list object)
  : option (string * string) :=
  match rows with
  | [] => None
  | _ => Some (filename, join (str1 lf) (csvLines rows))
  end.

End App.

(* ================================================================== *)
(** ** src/GazeRecorder.jsx *)
(* ================================================================== *)

Module GazeRecorder.
Import Js.

(** *** CSV export *)

(** The text of the template literal returned by csvEscape for a string
    that needs quoting.  In the source the dollar sign of the placeholder
    is preceded by a backslash, so the placeholder is not evaluated: the
    literal denotes its own characters, a double quote, the dollar sign,
    the text of the replace call in braces, and a closing double quote. *)
Definition escaped_template : string :=
  (str1 dq ++ "${s.replace(/" ++ str1 dq ++ "/g, '" ++ str1 dq ++ str1 dq
     ++ "')}" ++ str1 dq)%string.

(** csvEscape of GazeRecorder.jsx. *)
Definition csvEscape (v : value) : string :=
  if loosely_null v then EmptyString
  else
    let s := String_ v in
    if test_special s then escaped_template else s.

(** The header of downloadCsv: Object.keys(rows[0]). *)
Definition csvHeader (rows : list object) : list string :=
  match rows with
  | [] => []
  | r0 :: _ => Object_keys r0
  end.

Definition csvLines (rows : list object) : list string :=
  let header := csvHeader rows in
  join (str1 comma) header
    :: map (fun r => join (str1 comma) (map (fun k => csvEscape (get r k)) header)) rows.

(** downloadCsv: nothing happens for an empty array; otherwise the file
    name and the text of the downloaded blob. *)
Definition downloadCsv (filename : string) (rows : list object)
  : option (string * string) :=
  match rows with
  | [] => None
  | _ => Some (filename, join (str1 lf) (csvLines rows))
  end.

(** *** Numeric helpers *)

Definition clamp (n lo hi : number) : number :=
  Math_max lo (Math_min hi n).

Definition num (z : Z) : number := Fin (inject_Z z).

(** make9PointGrid: the fractions 0.1, 0.5 and 0.9 of the width and of the
    height, rounded; the outer loop runs over ys, the inner one over xs. *)
Definition fractions : list Q := [1 # 10; 1 # 2; 9 # 10]%Q.

Definition make9PointGrid (w h : Z) : list (Z * Z) :=
  let xs := map (fun p => round (p * inject_Z w)) fractions in
  let ys := map (fun p => round (p * inject_Z h)) fractions in
  flat_map (fun y => map (fun x => (x, y)) xs) ys.

(** The sampler period: Math.max(10, Math.round(1000 / sampleHz)), the
    quotient being the binary64 one. *)
Definition periodMs (sampleHz : number) : number :=
  Math_max (num 10) (Math_round (div64 (num 1000) sampleHz)).

(** Number.prototype.toFixed(6), for magnitudes below 1e21. *)
Fixpoint zeros (n : nat) : string :=
  match n with
  | O => EmptyString
  | S k => String "0"%char (zeros k)
  end.

Definition toFixed6 (n : number) : string :=
  match n with
  | NaN => "NaN"
  | PosInf => "Infinity"
  | NegInf => "-Infinity"
  | Fin q =>
      let m := round (Qabs q * inject_Z 1000000) in
      let frac := Z_to_string (m mod 1000000) in
      ((if Qle_bool 0 q then EmptyString else "-")
         ++ Z_to_string (m / 1000000) ++ "."
         ++ zeros (6 - String.length frac) ++ frac)
  end%string.

(** *** Component state *)

Record Window : Type := mkWindow
  { innerWidth : Z; innerHeight : Z; scrollY : Q }.

Record Props : Type := mkProps
  { sampleHz : number; clicksPerCalibrationPoint : Z }.

(** The values held with useState. *)
Record State : Type := mkState
  { ready : bool;
    recording : bool;
    calibrating : bool;
    status : string;
    calibIdx : Z;
    calibClicks : Z }.

Record GazePoint : Type := mkGaze
  { gx : number; gy : number; gts : Q }.

(** The values held with useRef, and the flag of the WebGazer effect. *)
Record Refs : Type := mkRefs
  { samples : list object;
    lastGaze : option GazePoint;
    sessionId : string;
    recordingStartTs : option Q;
    audioSegmentId : option string;
    audioRecordingRef : bool;
    lastAudioTs : option Q;
    stopped : bool }.

(** The component: props, state, refs, the memoised calibration grid, and
    the screen positions passed to webgazer.recordScreenPosition so far. *)
Record Component : Type := mkComponent
  { props : Props;
    state : State;
    refs : Refs;
    calibPts : list (Z * Z);
    recordedPositions : list (Z * Z) }.

Definition with_state (c : Component) (s : State) : Component :=
  mkComponent (props c) s (refs c) (calibPts c) (recordedPositions c).

Definition with_refs (c : Component) (r : Refs) : Component :=
  mkComponent (props c) (state c) r (calibPts c) (recordedPositions c).

(** First render: the initial useState and useRef values; the useMemo with
    an empty dependency list computes the grid from the window once. *)
Definition mount (p : Props) (w : Window) (uuid : string) : Component :=
  {| props := p;
     state := mkState false false false "init" 0 0;
     refs := mkRefs [] None uuid None None false None false;
     calibPts := make9PointGrid (innerWidth w) (innerHeight w);
     recordedPositions := [] |}.

(** *** Gaze listener *)

(** The callback given to setGazeListener. [data] is None for a missing
    payload; [ts] is None when WebGazer passes no timestamp. *)
Definition gazeListener (data : option (number * number)) (ts : option Q)
           (now : Q) (r : Refs) : Refs :=
  if stopped r then r
  else match data with
       | None => r
       | Some (dx, dy) =>
           if negb (isFinite dx) || negb (isFinite dy) then r
           else mkRefs (samples r)
                       (Some (mkGaze dx dy (match ts with Some t => t | None => now end)))
                       (sessionId r) (recordingStartTs r) (audioSegmentId r)
                       (audioRecordingRef r) (lastAudioTs r) (stopped r)
       end.

(** *** Fixed-rate sampler *)

(** The result of getDomContextAtPoint. *)
Record DomContext : Type := mkDomContext
  { content_id : string;
    content_type : string;
    element_tag : string;
    element_id : string;
    element_class : string;
    bbox_x : value;
    bbox_y : value;
    bbox_w : value;
    bbox_h : value }.

(** What a tick reads from outside the component: the window, the clock,
    and the two DOM queries. *)
Record TickEnv : Type := mkTickEnv
  { win : Window;
    now : Q;
    getDomContextAtPoint : number -> number -> DomContext;
    getActiveQuestionId : string }.

Definition or_zero (t : option Q) : Q :=
  match t with Some q => q | None => 0%Q end.

(** The row object literal pushed by a tick, keys in source order. *)
Definition sampleRow (e : TickEnv) (r : Refs) (g : GazePoint) : object :=
  let x := clamp (gx g) (num 0) (num (innerWidth (win e))) in
  let y := clamp (gy g) (num 0) (num (innerHeight (win e))) in
  let ctx := getDomContextAtPoint e x y in
  let questionId := getActiveQuestionId e in
  [ ("session_id", VStr (sessionId r));
    ("ts_ms", VInt (round (now e - or_zero (recordingStartTs r))));
    ("gaze_x_px", rounded_value x);
    ("gaze_y_px", rounded_value y);
    ("gaze_x_norm", VStr (toFixed6 (div x (num (innerWidth (win e))))));
    ("gaze_y_norm", VStr (toFixed6 (div y (num (innerHeight (win e))))));
    ("scroll_y", VInt (round (scrollY (win e))));
    ("audio_recording", VInt (if audioRecordingRef r then 1 else 0));
    ("audio_segment_id",
      VStr (if audioRecordingRef r
            then match audioSegmentId r with Some s => s | None => EmptyString end
            else EmptyString));
    ("audio_ts_ms",
      match audioRecordingRef r, lastAudioTs r with
      | true, Some t => VInt (round (t - or_zero (recordingStartTs r)))
      | _, _ => VStr EmptyString
      end);
    ("content_id", VStr (content_id ctx));
    ("content_type", VStr (content_type ctx));
    ("question_id", VStr questionId);
    ("element_tag", VStr (element_tag ctx));
    ("element_id", VStr (element_id ctx));
    ("element_class", VStr (element_class ctx));
    ("bbox_x", bbox_x ctx);
    ("bbox_y", bbox_y ctx);
    ("bbox_w", bbox_w ctx);
    ("bbox_h", bbox_h ctx) ]%string.

(** The setInterval callback. *)
Definition samplerTick (e : TickEnv) (r : Refs) : Refs :=
  match lastGaze r with
  | None => r
  | Some g =>
      mkRefs (samples r ++ [sampleRow e r g])
             (lastGaze r) (sessionId r) (recordingStartTs r) (audioSegmentId r)
             (audioRecordingRef r) (lastAudioTs r) (stopped r)
  end.

(** *** Calibration *)

Definition set_calibration (s : State) (on : bool) (st : string) (idx clicks : Z) : State :=
  mkState (ready s) (recording s) on st idx clicks.

(** startCalibration: the WebGazer overlays are hidden (not modelled), then
    the four setters run. *)
Definition startCalibration (c : Component) : Component :=
  with_state c (set_calibration (state c) true "calibrating" 0 0).

(** onCalibDotClick(x, y). *)
Definition onCalibDotClick (x y : Z) (c : Component) : Component :=
  let s := state c in
  let nextClicks := calibClicks s + 1 in
  let s1 :=
    if clicksPerCalibrationPoint (props c) <=? nextClicks then
      let nextIdx := calibIdx s + 1 in
      if Z.of_nat (List.length (calibPts c)) <=? nextIdx
      then set_calibration s false "calibration done" nextIdx 0
      else set_calibration s (calibrating s) (status s) nextIdx 0
    else set_calibration s (calibrating s) (status s) (calibIdx s) nextClicks in
  mkComponent (props c) s1 (refs c) (calibPts c) (recordedPositions c ++ [(x, y)]).

(** The dot that is on screen: rendered only while calibrating and while
    calibIdx is below calibPts.length, at calibPts[calibIdx]. *)
Definition currentDot (c : Component) : option (Z * Z) :=
  if calibrating (state c) && (calibIdx (state c) <? Z.of_nat (List.length (calibPts c)))
  then nth_error (calibPts c) (Z.to_nat (calibIdx (state c)))
  else None.

(** A click on the calibration dot: possible only when a dot is shown. *)
Definition clickDot (c : Component) : option Component :=
  match currentDot c with
  | Some (x, y) => Some (onCalibDotClick x y c)
  | None => None
  end.

(** n clicks in a row on whatever dot is shown. *)
Fixpoint clickDots (n : nat) (c : Component) : option Component :=
  match n with
  | O => Some c
  | S k => match clickDot c with
           | Some c' => clickDots k c'
           | None => None
           end
  end.

(** *** Recording session *)

(** startRecording of the component. *)
Definition startRecording (uuid : string) (now : Q) (c : Component) : Component :=
  let r := refs c in
  let s := state c in
  mkComponent (props c)
    (mkState (ready s) true (calibrating s) "recording" (calibIdx s) (calibClicks s))
    (mkRefs [] (lastGaze r) uuid (Some now) None
            (audioRecordingRef r) (lastAudioTs r) (stopped r))
    (calibPts c) (recordedPositions c).

(** stopRecording of the component (the call to the audio hook is not part
    of this component's own state). *)
Definition stopRecording (c : Component) : Component :=
  let r := refs c in
  let s := state c in
  mkComponent (props c)
    (mkState (ready s) false (calibrating s) "stopped" (calibIdx s) (calibClicks s))
    (mkRefs (samples r) (lastGaze r) (sessionId r) (recordingStartTs r) None
            (audioRecordingRef r) (lastAudioTs r) (stopped r))
    (calibPts c) (recordedPositions c).

(** The effect on the audio flag: the ref mirrors the flag and the
    liveness timestamp is set or cleared. *)
Definition audioEffect (audioRecording : bool) (now : Q) (r : Refs) : Refs :=
  mkRefs (samples r) (lastGaze r) (sessionId r) (recordingStartTs r) (audioSegmentId r)
         audioRecording (if audioRecording then Some now else None) (stopped r).

(** The 50 ms liveness tick, alive only while the audio flag is set. *)
Definition audioTick (now : Q) (r : Refs) : Refs :=
  if audioRecordingRef r
  then mkRefs (samples r) (lastGaze r) (sessionId r) (recordingStartTs r)
              (audioSegmentId r) (audioRecordingRef r) (Some now) (stopped r)
  else r.

(** startAudioRecording and stopAudioRecording write the segment id ref. *)
Definition setAudioSegmentId (id : option string) (r : Refs) : Refs :=
  mkRefs (samples r) (lastGaze r) (sessionId r) (recordingStartTs r) id
         (audioRecordingRef r) (lastAudioTs r) (stopped r).

(** WebGazer has started: setReady(true), setStatus of ready. *)
Definition webgazerReady (c : Component) : Component :=
  let s := state c in
  with_state c (mkState true (recording s) (calibrating s) "ready" (calibIdx s) (calibClicks s)).

(** The cleanup of the WebGazer effect. *)
Definition webgazerCleanup (r : Refs) : Refs :=
  mkRefs (samples r) (lastGaze r) (sessionId r) (recordingStartTs r)
         (audioSegmentId r) (audioRecordingRef r) (lastAudioTs r) true.

(** *** Events of the component *)

Inductive Event : Type :=
| EReady
| ECleanup
| EGaze (data : option (number * number)) (ts : option Q) (now : Q)
| ETick (e : TickEnv)
| EStartCalibration
| EClickDot
| EStartRecording (uuid : string) (now : Q)
| EStopRecording
| EAudioEffect (audioRecording : bool) (now : Q)
| EAudioTick (now : Q)
| EAudioSegment (id : option string).

(** One event.  The sampler interval exists only while recording is set;
    buttons are disabled as in the rendered bar; a dot can be clicked only
    when it is shown. *)
Definition step (ev : Event) (c : Component) : Component :=
  let s := state c in
  match ev with
  | EReady => webgazerReady c
  | ECleanup => with_refs c (webgazerCleanup (refs c))
  | EGaze data ts now => with_refs c (gazeListener data ts now (refs c))
  | ETick e => if recording s then with_refs c (samplerTick e (refs c)) else c
  | EStartCalibration =>
      if negb (ready s) || recording s then c else startCalibration c
  | EClickDot => match clickDot c with Some c' => c' | None => c end
  | EStartRecording uuid now =>
      if negb (ready s) || calibrating s || recording s then c
      else startRecording uuid now c
  | EStopRecording => if negb (recording s) then c else stopRecording c
  | EAudioEffect b now => with_refs c (audioEffect b now (refs c))
  | EAudioTick now => with_refs c (audioTick now (refs c))
  | EAudioSegment id => with_refs c (setAudioSegmentId id (refs c))
  end.

Definition run (evs : list Event) (c : Component) : Component :=
  fold_left (fun acc ev => step ev acc) evs c.

(** Events that neither open nor close a recording session. *)
Definition inSession (ev : Event) : bool :=
  match ev with
  | EStartRecording _ _ | EStopRecording => false
  | _ => true
  end.

(** The number of ticks of a trace, and the number of those at which the
    latest-gaze slot held a point. *)
Fixpoint ticks (evs : list Event) : nat :=
  match evs with
  | [] => O
  | ETick _ :: rest => S (ticks rest)
  | _ :: rest => ticks rest
  end.

Fixpoint ticksWithGaze (evs : list Event) (c : Component) : nat :=
  match evs with
  | [] => O
  | ev :: rest =>
      (match ev, lastGaze (refs c) with
       | ETick _, Some _ => 1
       | _, _ => 0
       end + ticksWithGaze rest (step ev c))%nat
  end.

End GazeRecorder.

(* ================================================================== *)
(** ** The useAudioRecorder hook *)
(* ================================================================== *)

Module AudioRecorder.
Import Js.

(** A value caught by the catch clause of startRecording. *)
Inductive thrown : Type :=
| ErrorObject (name message : string)
| ThrownString (s : string)
| ThrownNull
| ThrownUndefined.

(** Error.prototype.toString. *)
Definition error_toString (name message : string) : string :=
  if String.eqb name EmptyString then message
  else if String.eqb message EmptyString then name
  else (name ++ ": " ++ message)%string.

(** String(e?.message || e). *)
Definition thrown_message (e : thrown) : string :=
  match e with
  | ErrorObject name message =>
      if String.eqb message EmptyString then error_toString name message else message
  | ThrownString s => s
  | ThrownNull => "null"
  | ThrownUndefined => "undefined"
  end%string.

(** The metadata a caller attaches to a segment. *)
Record Meta : Type := mkMeta
  { question_id : string; session_id : string }.

(** A sealed segment of the recordings list. *)
Record Recording : Type := mkRecording
  { rid : string;
    rstartTs : Q;
    rstopTs : Q;
    rdurationMs : Q;
    rmimeType : string;
    rblob : list string;
    rurl : string;
    rmeta : option Meta }.

(** A MediaRecorder object together with what its handlers captured:
    the id and start time of the call that created it. *)
Record Recorder : Type := mkRecorder
  { recMimeType : string;
    recRecordingId : string;
    recStartTs : Q;
    recActive : bool }.

(** Hook state: the three useState values, the six refs, and the
    MediaRecorder objects created so far (mediaRecorderRef holds an index
    into them). *)
Record Hook : Type := mkHook
  { isRecording : bool;
    recordings : list Recording;
    error : string;
    mediaRecorderRef : option nat;
    streamRef : option nat;
    chunksRef : list string;
    pendingMetaRef : option Meta;
    pendingIdRef : option string;
    startTsRef : option Q;
    recorders : list Recorder }.

Definition initial : Hook :=
  mkHook false [] EmptyString None None [] None None None [].

(** What one call of startRecording meets outside the hook. *)
Record StartEnv : Type := mkStartEnv
  { isSupported : bool;
    randomUUID : string;
    getUserMedia : thrown + nat;
    newMediaRecorder : thrown + string;
    now : Q;
    recorderStart : option thrown }.

Definition set_error_idle (h : Hook) (msg : string) : Hook :=
  mkHook false (recordings h) msg (mediaRecorderRef h) (streamRef h) (chunksRef h)
         (pendingMetaRef h) (pendingIdRef h) (startTsRef h) (recorders h).

(** id || crypto.randomUUID(): an absent or empty id is replaced. *)
Definition recordingIdOf (id : option string) (env : StartEnv) : string :=
  match id with
  | Some s => if String.eqb s EmptyString then randomUUID env else s
  | None => randomUUID env
  end.

(** startRecording({ id, meta }): the new state and the returned id. *)
Definition startRecording (env : StartEnv) (id : option string) (meta : option Meta)
           (h : Hook) : Hook * option string :=
  if negb (isSupported env) then
    (mkHook (isRecording h) (recordings h)
            "Audio recording is not supported in this browser."
            (mediaRecorderRef h) (streamRef h) (chunksRef h)
            (pendingMetaRef h) (pendingIdRef h) (startTsRef h) (recorders h),
     None)
  else if isRecording h then (h, pendingIdRef h)
  else
    let recordingId := recordingIdOf id env in
    (* setError of the empty string *)
    let h0 := mkHook (isRecording h) (recordings h) EmptyString (mediaRecorderRef h)
                     (streamRef h) (chunksRef h) (pendingMetaRef h) (pendingIdRef h)
                     (startTsRef h) (recorders h) in
    (* ensureStream *)
    match (match streamRef h0 with
           | Some s => inr s
           | None => getUserMedia env
           end) with
    | inl e => (set_error_idle h0 (thrown_message e), None)
    | inr s =>
        let h1 := mkHook (isRecording h0) (recordings h0) (error h0) (mediaRecorderRef h0)
                         (Some s) (chunksRef h0) (pendingMetaRef h0) (pendingIdRef h0)
                         (startTsRef h0) (recorders h0) in
        match newMediaRecorder env with
        | inl e => (set_error_idle h1 (thrown_message e), None)
        | inr mime =>
            let startTs := now env in
            let k := List.length (recorders h1) in
            let h2 := mkHook (isRecording h1) (recordings h1) (error h1)
                             (mediaRecorderRef h1) (streamRef h1) []
                             meta (Some recordingId) (Some startTs)
                             (recorders h1 ++ [mkRecorder mime recordingId startTs false]) in
            match recorderStart env with
            | Some e => (set_error_idle h2 (thrown_message e), None)
            | None =>
                (mkHook true (recordings h2) (error h2) (Some k) (streamRef h2)
                        (chunksRef h2) (pendingMetaRef h2) (pendingIdRef h2)
                        (startTsRef h2)
                        (recorders h1 ++ [mkRecorder mime recordingId startTs true]),
                 Some recordingId)
            end
        end
    end.

(** recorder.onerror: evt?.error?.message || the default text. *)
Definition default_error : string := "Audio recorder error.".

Definition onerror (message : option string) (h : Hook) : Hook :=
  let msg := match message with
             | Some s => if String.eqb s EmptyString then default_error else s
             | None => default_error
             end in
  set_error_idle h msg.

(** recorder.ondataavailable: a chunk of positive size is kept. *)
Definition ondataavailable (data : option string) (h : Hook) : Hook :=
  match data with
  | Some d =>
      if (0 <? String.length d)%nat
      then mkHook (isRecording h) (recordings h) (error h) (mediaRecorderRef h)
                  (streamRef h) (chunksRef h ++ [d]) (pendingMetaRef h)
                  (pendingIdRef h) (startTsRef h) (recorders h)
      else h
  | None => h
  end.

(** getAudioMimeType(recorder): the recorder's own type when it has one,
    otherwise the first supported of webm, ogg and wav, otherwise webm. *)
Record MimeSupport : Type := mkMimeSupport
  { hasMediaRecorder : bool; webm : bool; ogg : bool; wav : bool }.

Definition getAudioMimeType (m : MimeSupport) (recMime : string) : string :=
  if negb (String.eqb recMime EmptyString) then recMime
  else if hasMediaRecorder m && webm m then "audio/webm"
  else if hasMediaRecorder m && ogg m then "audio/ogg"
  else if hasMediaRecorder m && wav m then "audio/wav"
  else "audio/webm".

(** recorder.onstop of the recorder [r].  The blob and the duration are
    computed when the event fires, from the refs as they are then.  The
    record itself is built by the updater handed to setRecordings, which
    React runs when it renders the component next; by then the handler has
    reset the refs, so the updater finds them null: the id and the start
    time fall back on the values captured by the closure, and meta is
    null. *)
Definition onstop (m : MimeSupport) (r : Recorder) (stopTs : Q) (url : string)
           (h : Hook) : Hook :=
  let blob := chunksRef h in
  let start := match startTsRef h with Some t => t | None => stopTs end in
  let durationMs := (stopTs - start)%Q in
  (* the handler resets the refs and asks for isRecording to be false *)
  let h1 := mkHook false (recordings h) (error h) (mediaRecorderRef h) (streamRef h)
                   [] None None None (recorders h) in
  (* the updater, run at the next render, reads the refs of h1 *)
  let rec :=
    mkRecording
      (match pendingIdRef h1 with
       | Some s => if String.eqb s EmptyString then recRecordingId r else s
       | None => recRecordingId r
       end)
      (match startTsRef h1 with Some t => t | None => recStartTs r end)
      stopTs
      durationMs
      (getAudioMimeType m (recMimeType r))
      blob
      url
      (pendingMetaRef h1) in
  mkHook (isRecording h1) (recordings h1 ++ [rec]) (error h1) (mediaRecorderRef h1)
         (streamRef h1) (chunksRef h1) (pendingMetaRef h1) (pendingIdRef h1)
         (startTsRef h1) (recorders h1).

(** stopRecording: recorder.stop() when the current recorder is recording
    (stopping a recorder that is not recording changes nothing); the stop
    event arrives later as [onstop]. *)
Fixpoint deactivate (k : nat) (rs : list Recorder) : list Recorder :=
  match rs, k with
  | [], _ => []
  | r :: rest, O =>
      mkRecorder (recMimeType r) (recRecordingId r) (recStartTs r) false :: rest
  | r :: rest, S k' => r :: deactivate k' rest
  end.

Definition stopRecording (h : Hook) : Hook :=
  match mediaRecorderRef h with
  | None => h
  | Some k =>
      mkHook (isRecording h) (recordings h) (error h) (mediaRecorderRef h) (streamRef h)
             (chunksRef h) (pendingMetaRef h) (pendingIdRef h) (startTsRef h)
             (deactivate k (recorders h))
  end.

Definition clearRecordings (h : Hook) : Hook :=
  mkHook (isRecording h) [] (error h) (mediaRecorderRef h) (streamRef h)
         (chunksRef h) (pendingMetaRef h) (pendingIdRef h) (startTsRef h) (recorders h).

Definition clearError (h : Hook) : Hook :=
  mkHook (isRecording h) (recordings h) EmptyString (mediaRecorderRef h) (streamRef h)
         (chunksRef h) (pendingMetaRef h) (pendingIdRef h) (startTsRef h) (recorders h).

(** Everything that can happen to the hook. *)
Inductive Event : Type :=
| EStart (env : StartEnv) (id : option string) (meta : option Meta)
| EStop
| EOnStop (m : MimeSupport) (k : nat) (stopTs : Q) (url : string)
| EOnError (k : nat) (message : option string)
| EOnData (k : nat) (data : option string)
| EClearRecordings
| EClearError.

(** Handlers of a recorder run only for recorders that exist. *)
Definition step (ev : Event) (h : Hook) : Hook :=
  match ev with
  | EStart env id meta => fst (startRecording env id meta h)
  | EStop => stopRecording h
  | EOnStop m k stopTs url =>
      match nth_error (recorders h) k with
      | Some r => onstop m r stopTs url h
      | None => h
      end
  | EOnError k message =>
      match nth_error (recorders h) k with
      | Some _ => onerror message h
      | None => h
      end
  | EOnData k data =>
      match nth_error (recorders h) k with
      | Some _ => ondataavailable data h
      | None => h
      end
  | EClearRecordings => clearRecordings h
  | EClearError => clearError h
  end.

Definition run (evs : list Event) (h : Hook) : Hook :=
  fold_left (fun acc ev => step ev acc) evs h.

End AudioRecorder.

(* ================================================================== *)
(** ** Specification-side notions for the CSV export *)
(* ================================================================== *)

Module CsvSpec.
Import Js.

(** The keys of a sequence in first-seen order: each key once, at the
    place of its first occurrence. *)
Fixpoint first_seen (ks : list string) : list string :=
  match ks with
  | [] => []
  | k :: rest => k :: filter (fun k' => negb (String.eqb k' k)) (first_seen rest)
  end.

(** The union of the keys of all rows, in first-seen order. *)
Definition union_of_keys (rows : list object) : list string :=
  first_seen (List.concat (map Object_keys rows)).

(** The text of a table with the given header, fields escaped by [esc]. *)
Definition table (esc : value -> string) (header : list string)
           (rows : list object) : string :=
  join (str1 lf)
       (join (str1 comma) header
          :: map (fun r => join (str1 comma) (map (fun k => esc (get r k)) header)) rows).

(** The string has a comma, a double quote or a line feed in it. *)
Definition has_special (s : string) : Prop :=
  exists c, In c (list_ascii_of_string s) /\ (c = comma \/ c = dq \/ c = lf).

(** The sample string a,b dq c of the specification and its escaped form. *)
Definition sample_field : string := ("a,b" ++ str1 dq ++ "c")%string.

Definition sample_escaped : string :=
  (str1 dq ++ "a,b" ++ str1 dq ++ str1 dq ++ "c" ++ str1 dq)%string.

(** Two rows of different shapes. *)
Definition mixed_rows : list object :=
  [ [("a", VInt 1)]; [("b", VInt 2)] ]%string.


(** Two rows with the same keys in different orders. *)
Definition homogeneous_rows : list object :=
  [ [("a", VInt 1); ("b", VStr "x")]; [("b", VStr "y"); ("a", VNull)] ]%string.

End CsvSpec.

(* ================================================================== *)
(** ** Specification-side notions for the recorder and the audio hook *)
(* ================================================================== *)

Module RecorderSpec.
Import Js GazeRecorder.

(** n is the integer nearest to x, the upper one when x lies half way. *)
Definition nearest_ties_up (x : Q) (n : Z) : Prop :=
  (inject_Z n - (1 # 2) <= x /\ x < inject_Z n + (1 # 2))%Q.

(** The binary64 number written 95.23809523809524, as the rational it is. *)
Definition sampleHz_95_238 : Q := 1675446289944381 # 2 ^ 44.

(** A bound on the error of one binary64 rounding of a: 2^-53 of a, or
    half the smallest unit. *)
Definition rounding_error (a : Q) : Q := (a * (1 # 2 ^ 53) + (1 # 2 ^ 1075))%Q.

(** The slot is empty or holds a point with finite coordinates. *)
Definition slotFinite (r : Refs) : Prop :=
  match lastGaze r with
  | None => True
  | Some g => isFinite (gx g) = true /\ isFinite (gy g) = true
  end.

(** The payloads the listener discards: none, or a non-finite coordinate. *)
Definition discarded (data : option (number * number)) : bool :=
  match data with
  | None => true
  | Some (dx, dy) => negb (isFinite dx) || negb (isFinite dy)
  end.

(** The rows one event adds: one for a tick that finds a point in the
    slot, none otherwise. *)
Definition rowsOf (ev : Event) (c : Component) : nat :=
  match ev, lastGaze (refs c) with
  | ETick _, Some _ => 1%nat
  | _, _ => 0%nat
  end.

(** The screen position clicked at the k-th click (counted from 0) when
    every point takes T clicks. *)
Definition clickedPoint (pts : list (Z * Z)) (T : Z) (k : nat) : Z * Z :=
  nth (Z.to_nat (Z.of_nat k / T)) pts (0, 0).

(** The state of a calibration run after n clicks. *)
Record CalibrationAfter (c : Component) (T : Z) (n : nat) (c' : Component) : Prop :=
  { ca_props : props c' = props c;
    ca_refs : refs c' = refs c;
    ca_pts : calibPts c' = calibPts c;
    ca_idx : calibIdx (state c') = Z.of_nat n / T;
    ca_clicks : calibClicks (state c') = Z.of_nat n mod T;
    ca_calibrating :
      calibrating (state c') = (Z.of_nat n <? T * Z.of_nat (List.length (calibPts c)));
    ca_status :
      status (state c')
      = if Z.of_nat n <? T * Z.of_nat (List.length (calibPts c))
        then "calibrating"%string else "calibration done"%string;
    ca_recorded :
      recordedPositions c'
      = recordedPositions c ++ map (clickedPoint (calibPts c) T) (seq 0 n) }.

(** The grid written out: three rows, each with the three columns. *)
Definition rowMajorGrid (w h : Z) : list (Z * Z) :=
  let x p := round (p * inject_Z w) in
  let y p := round (p * inject_Z h) in
  [ (x (1 # 10), y (1 # 10)); (x (1 # 2), y (1 # 10)); (x (9 # 10), y (1 # 10));
    (x (1 # 10), y (1 # 2));  (x (1 # 2), y (1 # 2));  (x (9 # 10), y (1 # 2));
    (x (1 # 10), y (9 # 10)); (x (1 # 2), y (9 # 10)); (x (9 # 10), y (9 # 10)) ]%Q.

(** The claim of C7 about the grid: after the component was first
    rendered in window [w0] and went through [evs], a start of
    calibration in window [w1] leaves the grid computed from [w1]. *)
Definition gridRecomputedAtStart (p : Props) (w0 w1 : Window) (uuid : string)
           (evs : list Event) : Prop :=
  calibPts (startCalibration (run evs (mount p w0 uuid)))
  = make9PointGrid (innerWidth w1) (innerHeight w1).

Definition sampleComponent : Component :=
  mount (mkProps (num 5) 6) (mkWindow 1000 800 0) "session".


(** A tick environment over a page with no annotated content. *)
Definition blankContext : DomContext :=
  mkDomContext EmptyString EmptyString EmptyString EmptyString EmptyString
               (VStr EmptyString) (VStr EmptyString) (VStr EmptyString) (VStr EmptyString).

Definition sampleTick (t : Q) : Event :=
  ETick (mkTickEnv (mkWindow 1000 800 0) t (fun _ _ => blankContext) "question_1").

(** A component that is ready and recording, and a session trace with four
    ticks, the first of which finds the slot empty. *)
Definition recordingComponent : Component :=
  run [EReady; EStartRecording "session-2" 0] sampleComponent.

Definition sampleSession : list Event :=
  [ sampleTick (200 # 1);
    EGaze (Some (Fin (10 # 1), Fin (20 # 1))) None (250 # 1);
    sampleTick (400 # 1);
    EGaze (Some (NaN, Fin (5 # 1))) None (450 # 1);
    sampleTick (600 # 1);
    EAudioEffect true (650 # 1);
    sampleTick (800 # 1) ].

End RecorderSpec.

Module AudioSpec.
Import Js AudioRecorder.

(** The value that reaches the catch clause of startRecording, if any:
    the first of getUserMedia (called only when no stream is cached), the
    MediaRecorder constructor and recorder.start() that throws. *)
Definition caught (env : StartEnv) (h : Hook) : option thrown :=
  match streamRef h, getUserMedia env with
  | None, inl e => Some e
  | _, _ =>
      match newMediaRecorder env with
      | inl e => Some e
      | inr _ => recorderStart env
      end
  end.

(** The exceptions of the platform (DOMException, TypeError) are error
    objects with a name. *)
Definition isPlatformError (e : thrown) : bool :=
  match e with
  | ErrorObject name _ => negb (String.eqb name EmptyString)
  | _ => false
  end.

(** In every recording state the pending id is the id captured by the
    recorder held in mediaRecorderRef. *)
Definition pendingIsCurrent (h : Hook) : Prop :=
  isRecording h = true ->
  exists k r,
    mediaRecorderRef h = Some k
    /\ nth_error (recorders h) k = Some r
    /\ pendingIdRef h = Some (recRecordingId r).

Definition sampleEnv (uuid : string) : StartEnv :=
  mkStartEnv true uuid (inr 0%nat) (inr "audio/webm"%string) 0 None.

Definition deniedEnv : StartEnv :=
  mkStartEnv true "u" (inl (ErrorObject "NotAllowedError" "Permission denied"))
             (inr "audio/webm"%string) 0 None.

End AudioSpec.


From Stdlib Require Import Permutation.

(* ================================================================== *)
(** ** More of the program: strings, hit testing, exports, questionnaire *)
(* ================================================================== *)

Module JsString.

(** String.prototype.includes. *)
Fixpoint includes (s sub : string) : bool :=
  String.prefix sub s
  || match s with
     | EmptyString => false
     | String _ rest => includes rest sub
     end.

(** String.prototype.toLowerCase on the letters A to Z. *)
Definition lower_ascii (c : ascii) : ascii :=
  let n := nat_of_ascii c in
  if (65 <=? n)%nat && (n <=? 90)%nat then ascii_of_nat (n + 32) else c.

Fixpoint toLowerCase (s : string) : string :=
  match s with
  | EmptyString => EmptyString
  | String c rest => String (lower_ascii c) (toLowerCase rest)
  end.

(** s.slice(0, n). *)
Definition slice0 (n : nat) (s : string) : string := String.substring 0 n s.

(** x || d for a string x that may be undefined: the empty string and
    undefined both give d. *)
Definition or_else (x : option string) (d : string) : string :=
  match x with
  | Some s => if String.eqb s EmptyString then d else s
  | None => d
  end.

(** The truth value of a string that may be undefined. *)
Definition truthy (x : option string) : bool :=
  match x with
  | Some s => negb (String.eqb s EmptyString)
  | None => false
  end.

End JsString.

(** *** Hit testing of src/GazeRecorder.jsx *)

Module HitTest.
Import Js JsString.

(** The result of getBoundingClientRect. *)
Record Rect : Type := mkRect
  { rect_x : Q; rect_y : Q; rect_width : Q; rect_height : Q }.

(** What the code reads of a DOM element. *)
Record Element : Type := mkElement
  { isHTMLElement : bool;
    contentId : option string;
    contentType : option string;
    tagName : string;
    elementId : string;
    className : string;
    boundingRect : Rect }.

(** findContentContainer(el, maxHops): [chain] is el followed by its
    parentElement chain up to the root. *)
Fixpoint findContentContainer (chain : list Element) (maxHops : nat) : option Element :=
  match maxHops, chain with
  | S hops, cur :: parents =>
      if isHTMLElement cur && truthy (contentId cur) then Some cur
      else findContentContainer parents hops
  | _, _ => None
  end.

Definition emptyContext : GazeRecorder.DomContext :=
  GazeRecorder.mkDomContext EmptyString EmptyString EmptyString EmptyString EmptyString
    (VStr EmptyString) (VStr EmptyString) (VStr EmptyString) (VStr EmptyString).

(** getDomContextAtPoint(x, y) over a document given by its elementFromPoint:
    the element hit, if any, with its ancestors. *)
Definition getDomContextAtPoint
           (elementFromPoint : number -> number -> option (Element * list Element))
           (x y : number) : GazeRecorder.DomContext :=
  match elementFromPoint x y with
  | None => emptyContext
  | Some (el, parents) =>
      if negb (isHTMLElement el) then emptyContext
      else
        let contentEl :=
          match findContentContainer (el :: parents) 10 with
          | Some c => c
          | None => el
          end in
        let r := boundingRect contentEl in
        GazeRecorder.mkDomContext
          (or_else (contentId contentEl) EmptyString)
          (or_else (contentType contentEl) EmptyString)
          (toLowerCase (tagName el))
          (elementId el)
          (slice0 120 (className el))
          (VInt (round (rect_x r)))
          (VInt (round (rect_y r)))
          (VInt (round (rect_width r)))
          (VInt (round (rect_height r)))
  end.

(** The declarative reading of the walk: the first annotated HTML element
    among the first maxHops elements of the chain. *)
Definition annotated (e : Element) : bool :=
  isHTMLElement e && truthy (contentId e).

Definition nearestAnnotated (chain : list Element) (maxHops : nat) : option Element :=
  find annotated (firstn maxHops chain).

End HitTest.

(** *** Exports of src/GazeRecorder.jsx and its use of the audio hook *)

Module GazeExports.
Import Js JsString GazeRecorder.

(** guessAudioExt(mimeType). *)
Definition guessAudioExt (mimeType : string) : string :=
  if String.eqb mimeType EmptyString then "webm"
  else if includes mimeType "ogg" then "ogg"
  else if includes mimeType "wav" then "wav"
  else "webm".

(** download(): nothing for an empty buffer. *)
Definition download (c : Component) : option (string * string) :=
  match samples (refs c) with
  | [] => None
  | rows =>
      downloadCsv ("gaze_session_" ++ sessionId (refs c) ++ ".csv")%string rows
  end.

(** The keys of the row literal pushed by a tick. *)
Definition sampleKeys : list string :=
  [ "session_id"; "ts_ms"; "gaze_x_px"; "gaze_y_px"; "gaze_x_norm"; "gaze_y_norm";
    "scroll_y"; "audio_recording"; "audio_segment_id"; "audio_ts_ms";
    "content_id"; "content_type"; "question_id";
    "element_tag"; "element_id"; "element_class";
    "bbox_x"; "bbox_y"; "bbox_w"; "bbox_h" ]%string.

(** latestRecording of the hook. *)
Definition latestRecording (h : AudioRecorder.Hook) : option AudioRecorder.Recording :=
  match AudioRecorder.recordings h with
  | [] => None
  | rs => nth_error rs (List.length rs - 1)
  end.

(** downloadLatestAudio(): the file name and the blob handed to downloadBlob. *)
Definition downloadLatestAudio (h : AudioRecorder.Hook) : option (string * list string) :=
  match latestRecording h with
  | None => None
  | Some rec =>
      Some (("audio_segment_" ++ AudioRecorder.rid rec ++ "."
               ++ guessAudioExt (AudioRecorder.rmimeType rec))%string,
            AudioRecorder.rblob rec)
  end.

(** One row of the audio log. *)
Definition audioLogRow (base : option Q) (sid : string) (rec : AudioRecorder.Recording)
  : object :=
  [ ("session_id",
      VStr (or_else (option_map AudioRecorder.session_id (AudioRecorder.rmeta rec)) sid));
    ("audio_segment_id", VStr (AudioRecorder.rid rec));
    ("question_id",
      VStr (or_else (option_map AudioRecorder.question_id (AudioRecorder.rmeta rec))
                    EmptyString));
    ("start_ts_ms", VInt (round (AudioRecorder.rstartTs rec - or_zero base)));
    ("stop_ts_ms", VInt (round (AudioRecorder.rstopTs rec - or_zero base)));
    ("duration_ms", VInt (round (AudioRecorder.rdurationMs rec)));
    ("mime_type", VStr (AudioRecorder.rmimeType rec));
    ("filename",
      VStr ("audio_segment_" ++ AudioRecorder.rid rec ++ "."
              ++ guessAudioExt (AudioRecorder.rmimeType rec))) ]%string.

Definition audioLogKeys : list string :=
  [ "session_id"; "audio_segment_id"; "question_id"; "start_ts_ms"; "stop_ts_ms";
    "duration_ms"; "mime_type"; "filename" ]%string.

(** downloadAudioLog(). *)
Definition downloadAudioLog (c : Component) (h : AudioRecorder.Hook)
  : option (string * string) :=
  match AudioRecorder.recordings h with
  | [] => None
  | recs =>
      downloadCsv ("audio_segments_" ++ sessionId (refs c) ++ ".csv")%string
                  (map (audioLogRow (recordingStartTs (refs c)) (sessionId (refs c))) recs)
  end.

(** startAudioRecording(): [id] is the fresh UUID of the call, [questionId]
    the result of getActiveQuestionId. *)
Definition startAudioRecording (env : AudioRecorder.StartEnv) (id questionId : string)
           (c : Component) (h : AudioRecorder.Hook) : Component * AudioRecorder.Hook :=
  if negb (recording (state c)) then (c, h)
  else if negb (AudioRecorder.isSupported env) then (c, h)
  else
    let res :=
      AudioRecorder.startRecording env (Some id)
        (Some (AudioRecorder.mkMeta questionId (sessionId (refs c)))) h in
    (match snd res with
     | Some startedId =>
         if String.eqb startedId EmptyString then c
         else with_refs c (setAudioSegmentId (Some startedId) (refs c))
     | None => c
     end,
     fst res).

(** stopAudioRecording(). *)
Definition stopAudioRecording (c : Component) (h : AudioRecorder.Hook)
  : Component * AudioRecorder.Hook :=
  (with_refs c (setAudioSegmentId None (refs c)), AudioRecorder.stopRecording h).

End GazeExports.

(** *** The questionnaire side of the application shell *)

Module Psychometric.
Import Js.

(** One recorded answer. *)
Record Response : Type := mkResponse
  { question_id : string;
    answer_option_index : value;
    answer_option_text : value;
    ts : Q }.

(** The responses object as the list of its properties in the order of
    Object.values: keys that are array indices first, in ascending numeric
    order, then the other keys in the order they were created. *)
Definition Responses : Type := list (string * Response).

(** The value of a string of decimal digits. *)
Fixpoint digitsValue (s : string) (acc : N) : option N :=
  match s with
  | EmptyString => Some acc
  | String c rest =>
      let n := N_of_ascii c in
      if (48 <=? n)%N && (n <=? 57)%N
      then digitsValue rest (acc * 10 + (n - 48))%N
      else None
  end.

(** A key is an array index when it is the canonical decimal form of an
    integer below 2^32 - 1. *)
Definition arrayIndex (k : string) : option N :=
  match k with
  | EmptyString => None
  | String c rest =>
      if Ascii.eqb c "0"%char && negb (String.eqb rest EmptyString) then None
      else match digitsValue k 0%N with
           | Some n => if (n <? 4294967295)%N then Some n else None
           | None => None
           end
  end.

Fixpoint hasKey (k : string) (o : Responses) : bool :=
  match o with
  | [] => false
  | (k', _) :: rest => String.eqb k' k || hasKey k rest
  end.

(** Writing an existing key keeps its place. *)
Fixpoint replaceValue (k : string) (v : Response) (o : Responses) : Responses :=
  match o with
  | [] => []
  | (k', v') :: rest =>
      if String.eqb k' k then (k, v) :: rest else (k', v') :: replaceValue k v rest
  end.

(** A new array-index key goes before the first key that is a larger index
    or no index at all. *)
Fixpoint insertIndex (n : N) (k : string) (v : Response) (o : Responses) : Responses :=
  match o with
  | [] => [(k, v)]
  | (k', v') :: rest =>
      match arrayIndex k' with
      | Some n' =>
          if (n <? n')%N then (k, v) :: (k', v') :: rest
          else (k', v') :: insertIndex n k v rest
      | None => (k, v) :: (k', v') :: rest
      end
  end.

(** The spread of prev followed by the computed key. *)
Definition put (k : string) (v : Response) (o : Responses) : Responses :=
  if hasKey k o then replaceValue k v o
  else match arrayIndex k with
       | Some n => insertIndex n k v o
       | None => o ++ [(k, v)]
       end.

Fixpoint lookup (k : string) (o : Responses) : option Response :=
  match o with
  | [] => None
  | (k', v) :: rest => if String.eqb k' k then Some v else lookup k rest
  end.

Record AppState : Type := mkAppState
  { psychometricActive : bool;
    psychometricResponses : Responses;
    psychometricStartTs : option Q;
    sessionId : string }.

(** startPsychometric(). *)
Definition startPsychometric (now : Q) (s : AppState) : AppState :=
  mkAppState true [] (Some now) (sessionId s).

(** onPsychometricAnswer(questionId, optionIndex, optionText). *)
Definition onPsychometricAnswer (questionId : string) (optionIndex optionText : value)
           (now : Q) (s : AppState) : AppState :=
  if negb (psychometricActive s) then s
  else mkAppState (psychometricActive s)
                  (put questionId (mkResponse questionId optionIndex optionText now)
                       (psychometricResponses s))
                  (psychometricStartTs s) (sessionId s).

(** x ?? the empty string. *)
Definition or_blank (v : value) : value :=
  if loosely_null v then VStr EmptyString else v.

(** The rows of downloadPsychometricCsv: Object.values in key order. *)
Definition psychometricRow (sid : string) (base : option Q) (r : Response) : object :=
  [ ("session_id", VStr sid);
    ("ts_ms", match base with
              | Some b => VInt (round (ts r - b))
              | None => VStr EmptyString
              end);
    ("question_id", VStr (question_id r));
    ("answer_option_index", or_blank (answer_option_index r));
    ("answer_option_text", or_blank (answer_option_text r)) ]%string.

Definition psychometricKeys : list string :=
  [ "session_id"; "ts_ms"; "question_id"; "answer_option_index";
    "answer_option_text" ]%string.

Definition psychometricRows (s : AppState) : list object :=
  map (fun kv => psychometricRow (sessionId s) (psychometricStartTs s) (snd kv))
      (psychometricResponses s).

Definition downloadPsychometricCsv (s : AppState) : option (string * string) :=
  App.downloadCsv "psychometric_responses.csv" (psychometricRows s).

(** stopPsychometric(): the download, then the flag is cleared. *)
Definition stopPsychometric (s : AppState) : option (string * string) * AppState :=
  (downloadPsychometricCsv s,
   mkAppState false (psychometricResponses s) (psychometricStartTs s) (sessionId s)).

(** The answers given during a test, as events. *)
Record Answer : Type := mkAnswer
  { a_question : string; a_index : value; a_text : value; a_now : Q }.

Definition responseOf (a : Answer) : Response :=
  mkResponse (a_question a) (a_index a) (a_text a) (a_now a).

Definition answerAll (answers : list Answer) (s : AppState) : AppState :=
  fold_left (fun acc a => onPsychometricAnswer (a_question a) (a_index a) (a_text a)
                                               (a_now a) acc)
            answers s.

(** The last answer given to a question, searching from the end. *)
Definition lastAnswer (q : string) (answers : list Answer) : option Answer :=
  find (fun a => String.eqb (a_question a) q) (rev answers).

End Psychometric.

(** *** Navigation of the question screen *)

Module QuestionScreen.
Import Js.

(** handleNext: the new index and whether onRestart is called, for a list
    of n questions. *)
Definition handleNext (n idx : Z) : Z * bool :=
  ((idx + 1) mod n, idx =? n - 1).

(** The Back button, enabled only when idx is positive. *)
Definition handleBack (idx : Z) : Z :=
  if 0 <? idx then Z.max 0 (idx - 1) else idx.

Inductive Nav : Type := Next | Back.

Definition nav (n : Z) (ev : Nav) (idx : Z) : Z :=
  match ev with
  | Next => fst (handleNext n idx)
  | Back => handleBack idx
  end.

Definition navigate (n : Z) (evs : list Nav) (idx : Z) : Z :=
  fold_left (fun i ev => nav n ev i) evs idx.

(** The delay before the options appear: Number.isFinite(optionDelayMs)
    selects the question's own delay, anything else the default of 3000;
    the timer gets Math.max(0, delay). *)
Definition optionDelay (optionDelayMs : option number) : number :=
  let delayMs :=
    match optionDelayMs with
    | Some (Fin q) => Fin q
    | _ => Fin (inject_Z 3000)
    end in
  Math_max (Fin 0%Q) delayMs.

End QuestionScreen.

(** *** Invariants of the component and of the hook *)

Module MoreSpec.
Import Js GazeRecorder GazeExports.

(** Every buffered row has the keys of the row literal and carries the
    current session id. *)
Definition bufferOfSession (c : Component) : Prop :=
  Forall (fun row => Object_keys row = sampleKeys
                     /\ get row "session_id" = VStr (sessionId (refs c)))
         (samples (refs c)).

(** Recording and calibrating both need a ready estimator and exclude each
    other. *)
Definition flagsOk (s : State) : bool :=
  implb (recording s) (ready s)
  && implb (calibrating s) (ready s)
  && negb (recording s && calibrating s).

(** The point index stays within the grid, strictly while calibrating. *)
Definition indexInGrid (c : Component) : Prop :=
  calibPts c <> []
  /\ 0 <= calibIdx (state c) <= Z.of_nat (List.length (calibPts c))
  /\ (calibrating (state c) = true ->
      calibIdx (state c) < Z.of_nat (List.length (calibPts c))).

(** A button inside an annotated option inside the page body. *)
Definition sampleChain : list HitTest.Element :=
  [ HitTest.mkElement true None None "SPAN" EmptyString EmptyString
                      (HitTest.mkRect 0 0 0 0);
    HitTest.mkElement true (Some "option_q1_0") (Some "question_option") "BUTTON"
                      EmptyString EmptyString (HitTest.mkRect 0 0 0 0);
    HitTest.mkElement true None None "BODY" EmptyString EmptyString
                      (HitTest.mkRect 0 0 0 0) ]%string.

Definition isStartRecording (ev : Event) : bool :=
  match ev with
  | EStartRecording _ _ => true
  | _ => false
  end.

End MoreSpec.

Module AudioMoreSpec.
Import Js AudioRecorder.


(** Every start of the trace happens in a browser without audio capture. *)
Definition startsUnsupported (ev : Event) : bool :=
  match ev with
  | EStart env _ _ => negb (isSupported env)
  | _ => true
  end.

Definition isClearRecordings (ev : Event) : bool :=
  match ev with
  | EClearRecordings => true
  | _ => false
  end.

Fixpoint stopEvents (evs : list Event) : nat :=
  match evs with
  | [] => O
  | EOnStop _ _ _ _ :: rest => S (stopEvents rest)
  | _ :: rest => stopEvents rest
  end.

(** The same call, with another answer of getUserMedia. *)
Definition withUserMedia (env : StartEnv) (media : thrown + nat) : StartEnv :=
  mkStartEnv (isSupported env) (randomUUID env) media (newMediaRecorder env)
             (now env) (recorderStart env).

(** The mime type the MediaRecorder constructor of a call reports. *)
Definition constructedMime (env : StartEnv) : string :=
  match newMediaRecorder env with
  | inr mime => mime
  | inl _ => EmptyString
  end.

End AudioMoreSpec.

(* ================================================================== *)
(** ** Theorems: CSV escaping *)
(* ================================================================== *)

Section CsvEscape.
Import Js CsvSpec.

Lemma is_special_iff (c : ascii) :
  is_special c = true <-> c = comma \/ c = dq \/ c = lf.
Proof.
  unfold is_special.
  rewrite !orb_true_iff, !Ascii.eqb_eq. tauto.
Qed.

(** The regular-expression test is the presence of one of the three
    characters. *)
Lemma test_special_iff (s : string) :
  test_special s = true <-> has_special s.
Proof.
  unfold has_special.
  induction s as [|c s IH]; simpl.
  - split; [discriminate | intros (c & [] & _)].
  - rewrite orb_true_iff, IH, is_special_iff. split.
    + intros [H | (c' & Hin & H)].
      * exists c. auto.
      * exists c'. auto.
    + intros (c' & [-> | Hin] & H); [left; exact H | right; eauto].
Qed.

(** The escaping routine of the application shell does what the
    specification says of CSV fields. *)
Lemma App_csvEscape_spec (v : value) :
  (loosely_null v = true -> App.csvEscape v = EmptyString)
  /\ (loosely_null v = false -> has_special (String_ v) ->
      App.csvEscape v = (str1 dq ++ double_quotes (String_ v) ++ str1 dq)%string)
  /\ (loosely_null v = false -> ~ has_special (String_ v) ->
      App.csvEscape v = String_ v).
Proof.
  unfold App.csvEscape. repeat split; intros Hn.
  - now rewrite Hn.
  - intros Hs. apply test_special_iff in Hs. now rewrite Hn, Hs.
  - intros Hs. rewrite Hn.
    destruct (test_special (String_ v)) eqn:E; [|reflexivity].
    exfalso. apply Hs, test_special_iff, E.
Qed.

Lemma App_csvEscape_sample :
  App.csvEscape (VStr sample_field) = sample_escaped.
Proof. reflexivity. Qed.

(** Doubling never leaves a double quote followed by a slash, which is
    what the unevaluated template text contains. *)
Lemma double_quotes_not_template (s : string) :
  (str1 dq ++ double_quotes s ++ str1 dq)%string <> GazeRecorder.escaped_template.
Proof.
  intros H. cbv [GazeRecorder.escaped_template str1 append] in H.
  fold append in H. injection H as H.
  do 13 (destruct s as [|? s]; [discriminate H|];
         cbn [double_quotes append] in H;
         match type of H with
         | context [Ascii.eqb ?c dq] => destruct (Ascii.eqb c dq)
         end; [discriminate H|]; injection H as _ H).
  destruct s as [|c s]; [discriminate H|].
  cbn [double_quotes append] in H.
  destruct (Ascii.eqb c dq) eqn:E.
  - discriminate H.
  - injection H as Hc _. apply Ascii.eqb_neq in E. congruence.
Qed.

End CsvEscape.

Section CsvClaims.
Import Js CsvSpec.

(** C3. The escaping function of GazeRecorder.jsx does not quote a field:
    for the sample a,b dq c of the specification it returns the text of
    its template literal, the same for every field that needs quoting,
    where the specification (and the escaping function of the application
    shell) gives the field in double quotes with the inner quote
    doubled. *)
Theorem C3_GazeRecorder_csvEscape_returns_template_text :
  GazeRecorder.csvEscape (VStr sample_field) = GazeRecorder.escaped_template
  /\ GazeRecorder.escaped_template <> sample_escaped
  /\ App.csvEscape (VStr sample_field) = sample_escaped
  /\ GazeRecorder.csvEscape VNull = EmptyString
  /\ GazeRecorder.csvEscape VUndefined = EmptyString.
Proof.
  repeat split; try reflexivity.
  intros H. discriminate H.
Qed.

(** C4. The two escaping routines are not extensionally equal: they agree
    exactly on the values that need no quoting (null, undefined, and
    values whose string form has no comma, double quote or line feed) and
    differ on every other value. *)
Theorem C4_csvEscape_routines_agree_only_without_quoting (v : value) :
  GazeRecorder.csvEscape v = App.csvEscape v
  <-> (loosely_null v || negb (test_special (String_ v))) = true.
Proof.
  unfold GazeRecorder.csvEscape, App.csvEscape.
  destruct (loosely_null v); simpl; [tauto|].
  destruct (test_special (String_ v)); simpl; [|tauto].
  split; [|discriminate].
  intros H. symmetry in H. now apply double_quotes_not_template in H.
Qed.

Lemma csvEscape_routines_differ_on_sample :
  GazeRecorder.csvEscape (VStr sample_field) <> App.csvEscape (VStr sample_field).
Proof. intros H. discriminate H. Qed.

End CsvClaims.

Section CsvHeader.
Import Js CsvSpec.

Lemma mem_In (k : string) (s : list string) : mem k s = true <-> In k s.
Proof.
  unfold mem. rewrite existsb_exists. split.
  - intros (x & Hin & E). apply String.eqb_eq in E. now subst.
  - intros Hin. exists k. split; [exact Hin | apply String.eqb_refl].
Qed.

Lemma mem_app (k : string) (a b : list string) :
  mem k (a ++ b) = mem k a || mem k b.
Proof. unfold mem. apply existsb_app. Qed.

Lemma filter_filter {A} (p q : A -> bool) (l : list A) :
  filter p (filter q l) = filter (fun x => q x && p x) l.
Proof.
  induction l as [|x l IH]; simpl; [reflexivity|].
  destruct (q x); simpl; [destruct (p x)|]; now rewrite IH.
Qed.

(** Adding keys one by one to an insertion-ordered set appends, to what
    was there, the new keys in first-seen order. *)
Lemma fold_set_add (ks acc : list string) :
  fold_left (fun hs k => set_add k hs) ks acc
  = acc ++ filter (fun k => negb (mem k acc)) (first_seen ks).
Proof.
  revert acc. induction ks as [|k ks IH]; intros acc; simpl.
  - now rewrite app_nil_r.
  - rewrite IH. unfold set_add.
    destruct (mem k acc) eqn:E; simpl.
    + f_equal. rewrite filter_filter. apply filter_ext. intros x.
      destruct (String.eqb x k) eqn:Ex; simpl; [|reflexivity].
      apply String.eqb_eq in Ex. subst x. now rewrite E.
    + rewrite <- app_assoc. simpl. do 2 f_equal.
      rewrite filter_filter. apply filter_ext. intros x.
      rewrite mem_app. unfold mem at 2. simpl. rewrite orb_false_r, negb_orb.
      apply andb_comm.
Qed.

Lemma fold_rows (rows : list object) (acc : list string) :
  fold_left (fun headerSet r =>
               fold_left (fun hs k => set_add k hs) (Object_keys r) headerSet)
            rows acc
  = fold_left (fun hs k => set_add k hs) (List.concat (map Object_keys rows)) acc.
Proof.
  revert acc. induction rows as [|r rows IH]; intros acc; simpl; [reflexivity|].
  now rewrite fold_left_app, IH.
Qed.

(** The header computed by the application shell is the union of the keys
    in first-seen order. *)
Lemma App_csvHeader_union (rows : list object) :
  App.csvHeader rows = union_of_keys rows.
Proof.
  unfold App.csvHeader, union_of_keys.
  rewrite fold_rows, fold_set_add. simpl.
  generalize (first_seen (List.concat (map Object_keys rows))) as l.
  induction l as [|x l IH]; simpl; [reflexivity | f_equal; exact IH].
Qed.

Lemma first_seen_In (k : string) (ks : list string) :
  In k (first_seen ks) <-> In k ks.
Proof.
  induction ks as [|k0 ks IH]; simpl; [tauto|].
  rewrite filter_In, IH, negb_true_iff, String.eqb_neq.
  destruct (String.eqb_spec k0 k); subst; intuition congruence.
Qed.

Lemma first_seen_NoDup (ks : list string) : NoDup (first_seen ks).
Proof.
  induction ks as [|k ks IH]; simpl; constructor.
  - rewrite filter_In, String.eqb_refl. simpl. intuition discriminate.
  - now apply NoDup_filter.
Qed.

Lemma fold_set_add_present (ks acc : list string) :
  (forall k, In k ks -> In k acc) ->
  fold_left (fun hs k => set_add k hs) ks acc = acc.
Proof.
  revert acc. induction ks as [|k ks IH]; intros acc H; simpl; [reflexivity|].
  unfold set_add at 2.
  assert (E : mem k acc = true) by (apply mem_In, H; now left).
  rewrite E. apply IH. intros k' Hk'. apply H. now right.
Qed.

Lemma fold_set_add_NoDup (a acc : list string) :
  NoDup (acc ++ a) ->
  fold_left (fun hs k => set_add k hs) a acc = acc ++ a.
Proof.
  revert acc. induction a as [|k a IH]; intros acc H; simpl.
  - now rewrite app_nil_r.
  - unfold set_add at 2.
    assert (E : mem k acc = false).
    { destruct (mem k acc) eqn:E; [|reflexivity].
      apply mem_In in E. apply NoDup_remove_2 in H.
      exfalso. apply H. apply in_or_app. now left. }
    rewrite E, IH; rewrite <- app_assoc; [reflexivity | exact H].
Qed.

(** When the keys of every row are among those of the first row, the
    union in first-seen order is the key list of the first row. *)
Lemma union_of_homogeneous (r : object) (rows : list object) :
  NoDup (Object_keys r) ->
  (forall r', In r' rows -> incl (Object_keys r') (Object_keys r)) ->
  union_of_keys (r :: rows) = Object_keys r.
Proof.
  intros Hnd Hincl.
  rewrite <- App_csvHeader_union. unfold App.csvHeader. simpl.
  rewrite (fold_set_add_NoDup (Object_keys r) []) by exact Hnd. simpl.
  rewrite fold_rows. apply fold_set_add_present.
  intros k Hk. apply in_concat in Hk. destruct Hk as (ks & Hks & Hk).
  apply in_map_iff in Hks. destruct Hks as (r' & <- & Hr').
  now apply (Hincl r').
Qed.

End CsvHeader.

Section CsvEncoder.
Import Js CsvSpec.

(** C5 as stated fails for the encoder of GazeRecorder.jsx: for two rows
    with the keys a and b the union is a, b but the emitted header is a
    alone, and the second data line is empty. *)
Lemma C5_GazeRecorder_header_is_first_row_only :
  union_of_keys mixed_rows = ["a"; "b"]%string
  /\ GazeRecorder.csvHeader mixed_rows = ["a"]%string
  /\ GazeRecorder.downloadCsv "f" mixed_rows
     <> Some ("f"%string, table GazeRecorder.csvEscape (union_of_keys mixed_rows) mixed_rows).
Proof.
  repeat split; try reflexivity.
  intros H. discriminate H.
Qed.

(** C5, amended. The encoder of the application shell emits the union of
    the keys of all rows in first-seen order as header; the encoder of
    GazeRecorder.jsx emits the keys of the first row, which is that union
    whenever the keys of every row are among those of the first row. In
    both, every data line lists the fields of exactly the header keys, in
    header order, each passed through the encoder's escaping routine. *)
Theorem C5_csv_header_and_lines :
  (forall filename r rows,
      App.downloadCsv filename (r :: rows)
      = Some (filename, table App.csvEscape (union_of_keys (r :: rows)) (r :: rows)))
  /\ (forall filename r rows,
      GazeRecorder.downloadCsv filename (r :: rows)
      = Some (filename, table GazeRecorder.csvEscape (Object_keys r) (r :: rows)))
  /\ (forall r rows,
      NoDup (Object_keys r) ->
      (forall r', In r' rows -> incl (Object_keys r') (Object_keys r)) ->
      GazeRecorder.csvHeader (r :: rows) = union_of_keys (r :: rows)).
Proof.
  repeat split.
  - intros filename r rows.
    unfold App.downloadCsv, App.csvLines, table.
    now rewrite App_csvHeader_union.
  - intros r rows Hnd Hincl. symmetry. now apply union_of_homogeneous.
Qed.

Lemma C5_csv_header_and_lines_witness :
  GazeRecorder.csvHeader homogeneous_rows = union_of_keys homogeneous_rows.
Proof.
  apply (proj2 (proj2 C5_csv_header_and_lines)).
  - repeat constructor; simpl; intuition discriminate.
  - intros r' [<- | []] k [<- | [<- | []]]; simpl; auto.
Defined.

End CsvEncoder.

(* ================================================================== *)
(** ** Theorems: the sampler period *)
(* ================================================================== *)

Section Period.
Import Js GazeRecorder RecorderSpec.

Lemma round_nearest (x : Q) : nearest_ties_up x (round x).
Proof.
  unfold nearest_ties_up, round.
  pose proof (Qfloor_le (x + (1 # 2))) as Hlo.
  pose proof (Qlt_floor (x + (1 # 2))) as Hhi.
  rewrite inject_Z_plus in Hhi. change (inject_Z 1) with 1%Q in Hhi.
  split; lra.
Qed.

Lemma nearest_unique (x : Q) (n m : Z) :
  nearest_ties_up x n -> nearest_ties_up x m -> n = m.
Proof.
  unfold nearest_ties_up. intros [Hn1 Hn2] [Hm1 Hm2].
  assert (H1 : (inject_Z n < inject_Z m + 1)%Q) by lra.
  assert (H2 : (inject_Z m < inject_Z n + 1)%Q) by lra.
  change 1%Q with (inject_Z 1) in H1, H2.
  rewrite <- inject_Z_plus, <- Zlt_Qlt in H1, H2. lia.
Qed.

Lemma round_mono (p q : Q) : (p <= q)%Q -> round p <= round q.
Proof. intros H. unfold round. apply Qfloor_resp_le. lra. Qed.

Lemma round_inject_Z (z : Z) : round (inject_Z z) = z.
Proof.
  apply (nearest_unique (inject_Z z)); [apply round_nearest|].
  unfold nearest_ties_up. split; lra.
Qed.

Lemma Math_max_num (a b : Z) : Math_max (num a) (num b) = num (Z.max a b).
Proof.
  unfold Math_max, num.
  destruct (Qle_bool (inject_Z a) (inject_Z b)) eqn:E.
  - apply Qle_bool_iff in E. rewrite <- Zle_Qle in E.
    now rewrite Z.max_r.
  - assert (H : ~ (a <= b)).
    { intros H. rewrite Zle_Qle in H. apply Qle_bool_iff in H. congruence. }
    rewrite Z.max_l by lia. reflexivity.
Qed.

(** *** Rounding to binary64 *)

Lemma pow2_pos (e : Z) : (0 < pow2 e)%Q.
Proof.
  destruct e as [|p|p]; unfold pow2.
  - reflexivity.
  - unfold Qlt; cbn [Qnum Qden inject_Z]. pose proof (Z.pow_pos_nonneg 2 (Z.pos p)). lia.
  - reflexivity.
Qed.

Lemma pow2_small (x : Z) : x <= -32 -> (pow2 x <= 1 # 2 ^ 32)%Q.
Proof.
  intros Hx. destruct x as [|p|p]; try lia.
  unfold pow2, Qle. cbn [Qnum Qden].
  assert (H : 2 ^ 32 <= 2 ^ Z.pos p) by (apply Z.pow_le_mono_r; lia).
  rewrite <- Pos2Z.inj_pow in H. lia.
Qed.

Lemma pow2_Qpower (e : Z) : (pow2 e == 2 ^ e)%Q.
Proof.
  destruct e as [|p|p].
  - reflexivity.
  - unfold pow2. apply (Zpower_Qpower 2 (Z.pos p)). lia.
  - unfold pow2. change (Z.neg p) with (- Z.pos p). rewrite Qpower_opp.
    rewrite <- (Zpower_Qpower 2 (Z.pos p)) by lia.
    rewrite <- Pos2Z.inj_pow. reflexivity.
Qed.

Lemma pow2_add (a b : Z) : (pow2 (a + b) == pow2 a * pow2 b)%Q.
Proof. rewrite !pow2_Qpower. apply Qpower_plus. discriminate. Qed.

Lemma pow2_nonneg_ge_1 (k : Z) : 0 <= k -> (1 <= pow2 k)%Q.
Proof.
  intros Hk. destruct k as [|p|p]; try lia.
  - discriminate.
  - unfold pow2. change 1%Q with (inject_Z 1). rewrite <- Zle_Qle.
    pose proof (Z.pow_pos_nonneg 2 (Z.pos p)). lia.
Qed.

Lemma pow2_le (a b : Z) : a <= b -> (pow2 a <= pow2 b)%Q.
Proof.
  intros H. replace b with (a + (b - a)) by lia. rewrite pow2_add.
  pose proof (pow2_pos a). pose proof (pow2_nonneg_ge_1 (b - a) ltac:(lia)). nra.
Qed.


Lemma nearest_even_spec (q : Q) :
  (q - (1 # 2) <= inject_Z (nearest_even q) <= q + (1 # 2))%Q.
Proof.
  unfold nearest_even.
  pose proof (Qfloor_le q) as Hlo. pose proof (Qlt_floor q) as Hhi.
  rewrite inject_Z_plus in Hhi. change (inject_Z 1) with 1%Q in Hhi.
  destruct (Qcompare_spec (q - inject_Z (Qfloor q)) (1 # 2)) as [He|Hl|Hg].
  - destruct (Z.even (Qfloor q)).
    + split; lra.
    + rewrite inject_Z_plus. change (inject_Z 1) with 1%Q. split; lra.
  - split; lra.
  - rewrite inject_Z_plus. change (inject_Z 1) with 1%Q. split; lra.
Qed.

Lemma nearest_even_nonneg (q : Q) : (0 <= q)%Q -> 0 <= nearest_even q.
Proof.
  intros Hq. unfold nearest_even.
  assert (Hf : 0 <= Qfloor q) by (change 0 with (Qfloor 0); apply Qfloor_resp_le; exact Hq).
  destruct (q - inject_Z (Qfloor q) ?= 1 # 2)%Q; try destruct (Z.even (Qfloor q)); lia.
Qed.



Lemma binade_le (n d : positive) :
  (Z.pos n # d <= inject_Z (2 ^ 20))%Q -> binade n d <= 20.
Proof.
  intros H. unfold Qle in H. cbn [Qnum Qden inject_Z] in H.
  assert (Hlog : Z.log2 (Z.pos n) <= 20 + Z.log2 (Z.pos d)).
  { rewrite <- (Z.log2_mul_pow2 (Z.pos d) 20) by lia.
    apply Z.log2_le_mono. lia. }
  unfold binade.
  destruct (Qle_bool _ _); lia.
Qed.

(** binade finds the power of two at or below n/d. *)
Lemma binade_spec (n d : positive) :
  (pow2 (binade n d) <= Z.pos n # d < pow2 (binade n d + 1))%Q.
Proof.
  unfold binade.
  set (ln := Z.log2 (Z.pos n)). set (ld := Z.log2 (Z.pos d)).
  destruct (Z.log2_spec (Z.pos n) ltac:(lia)) as [Hn1 Hn2].
  destruct (Z.log2_spec (Z.pos d) ltac:(lia)) as [Hd1 Hd2].
  fold ln in Hn1, Hn2. fold ld in Hd1, Hd2.
  assert (Hln : 0 <= ln) by apply Z.log2_nonneg.
  assert (Hld : 0 <= ld) by apply Z.log2_nonneg.
  assert (Hpn : 0 < 2 ^ ln) by (apply Z.pow_pos_nonneg; lia).
  assert (Hpd : 0 < 2 ^ ld) by (apply Z.pow_pos_nonneg; lia).
  assert (Hs : forall z, 0 <= z -> pow2 z = inject_Z (2 ^ z)).
  { intros [|p|p] Hz; try reflexivity; lia. }
  assert (Hup : (Z.pos n # d < pow2 (ln - ld + 1))%Q).
  { assert (E : (pow2 (ln - ld + 1) * pow2 ld == pow2 (ln + 1))%Q).
    { rewrite <- pow2_add. replace (ln - ld + 1 + ld) with (ln + 1) by lia. reflexivity. }
    rewrite (Hs ld Hld), (Hs (ln + 1)) in E by lia.
    pose proof (pow2_pos (ln - ld + 1)) as Hp.
    set (t := pow2 (ln - ld + 1)) in *.
    rewrite Qmake_Qdiv. apply Qlt_shift_div_r.
    - change 0%Q with (inject_Z 0). rewrite <- Zlt_Qlt. lia.
    - assert (H1 : (inject_Z (Z.pos n) < inject_Z (2 ^ (ln + 1)))%Q)
        by (rewrite <- Zlt_Qlt; lia).
      assert (H2 : (inject_Z (2 ^ ld) <= inject_Z (Z.pos d))%Q)
        by (rewrite <- Zle_Qle; lia).
      nra. }
  assert (Hlo : (pow2 (ln - ld - 1) <= Z.pos n # d)%Q).
  { assert (E : (pow2 (ln - ld - 1) * pow2 (ld + 1) == pow2 ln)%Q).
    { rewrite <- pow2_add. replace (ln - ld - 1 + (ld + 1)) with ln by lia. reflexivity. }
    rewrite (Hs (ld + 1)), (Hs ln) in E by lia.
    pose proof (pow2_pos (ln - ld - 1)) as Hp.
    set (t := pow2 (ln - ld - 1)) in *.
    rewrite Qmake_Qdiv. apply Qle_shift_div_l.
    - change 0%Q with (inject_Z 0). rewrite <- Zlt_Qlt. lia.
    - assert (H1 : (inject_Z (2 ^ ln) <= inject_Z (Z.pos n))%Q)
        by (rewrite <- Zle_Qle; lia).
      assert (H2 : (inject_Z (Z.pos d) <= inject_Z (2 ^ (ld + 1)))%Q)
        by (rewrite <- Zle_Qle; lia).
      nra. }
  destruct (Qle_bool (pow2 (ln - ld)) (Z.pos n # d)) eqn:E.
  - apply Qle_bool_iff in E. split; assumption.
  - assert (Hlt : (Z.pos n # d < pow2 (ln - ld))%Q).
    { apply Qnot_le_lt. intros H. apply Qle_bool_iff in H. congruence. }
    replace (ln - ld - 1 + 1) with (ln - ld) by lia. split; assumption.
Qed.

(** On positive values up to 2^20 the binary64 rounding is finite, not
    negative, and within 2^-33 of the exact value. *)
Lemma binary64_near (a : Q) :
  (0 < a)%Q -> (a <= inject_Z (2 ^ 20))%Q ->
  exists y, binary64 a = Fin y /\ (0 <= y)%Q
            /\ (a - (1 # 2 ^ 33) <= y <= a + (1 # 2 ^ 33))%Q.
Proof.
  intros Hpos Hle. destruct a as [an ad].
  destruct an as [|n|n]; try (exfalso; revert Hpos; unfold Qlt; cbn; lia).
  unfold binary64. cbn [Qnum Qden]. unfold binary64_pos.
  pose proof (binade_le n ad Hle) as He.
  set (e := binade n ad) in *.
  set (x := Z.max (e - 52) (-1074)).
  assert (Hx : x <= -32) by (unfold x; lia).
  set (q := ((Z.pos n # ad) / pow2 x)%Q).
  replace (1024 <=? e) with false by (symmetry; apply Z.leb_gt; lia).
  replace (x =? 971) with false by (symmetry; apply Z.eqb_neq; lia).
  cbn [orb andb].
  pose proof (pow2_pos x) as Hp. pose proof (pow2_small x Hx) as Hs.
  pose proof (nearest_even_spec q) as [Hlo Hhi].
  assert (Hq : (q * pow2 x == Z.pos n # ad)%Q).
  { unfold q. field. lra. }
  assert (Hq0 : (0 <= q)%Q).
  { unfold q. apply Qle_shift_div_l; [exact Hp|]. lra. }
  pose proof (nearest_even_nonneg q Hq0) as Hm.
  exists (inject_Z (nearest_even q) * pow2 x)%Q.
  split; [reflexivity|].
  assert (Hm' : (0 <= inject_Z (nearest_even q))%Q).
  { change 0%Q with (inject_Z 0). rewrite <- Zle_Qle. exact Hm. }
  assert (Hh : ((1 # 2) * pow2 x <= 1 # 2 ^ 33)%Q).
  { change (1 # 2 ^ 33)%Q with ((1 # 2) * (1 # 2 ^ 32))%Q. lra. }
  split; [nra|].
  split; nra.
Qed.



(** The error of one rounding: the result is infinite only from 2^1023 on,
    and otherwise lies within [rounding_error] of the exact value. *)
Lemma binary64_error (a : Q) :
  (0 < a)%Q ->
  ((pow2 1023 <= a)%Q /\ binary64 a = PosInf)
  \/ exists y, binary64 a = Fin y /\ (0 <= y)%Q
               /\ (a - rounding_error a <= y <= a + rounding_error a)%Q.
Proof.
  intros Hpos. destruct a as [an ad].
  destruct an as [|n|n]; try (exfalso; revert Hpos; unfold Qlt; cbn; lia).
  unfold binary64. cbn [Qnum Qden]. unfold binary64_pos.
  destruct (binade_spec n ad) as [He1 He2].
  set (e := binade n ad) in *.
  set (x := Z.max (e - 52) (-1074)).
  set (q := ((Z.pos n # ad) / pow2 x)%Q).
  destruct ((1024 <=? e) || ((x =? 971) && (nearest_even q =? 2 ^ 53))) eqn:Eov.
  - left. split; [|reflexivity].
    assert (H1023 : 1023 <= e).
    { apply orb_true_iff in Eov. destruct Eov as [H|H].
      - apply Z.leb_le in H. lia.
      - apply andb_true_iff in H. destruct H as [H _]. apply Z.eqb_eq in H.
        unfold x in H. lia. }
    apply (Qle_trans _ (pow2 e)); [apply pow2_le; exact H1023 | exact He1].
  - right.
    pose proof (pow2_pos x) as Hp.
    pose proof (nearest_even_spec q) as [Hlo Hhi].
    assert (Hq : (q * pow2 x == Z.pos n # ad)%Q) by (unfold q; field; lra).
    assert (Hq0 : (0 <= q)%Q).
    { unfold q. apply Qle_shift_div_l; [exact Hp|]. lra. }
    pose proof (nearest_even_nonneg q Hq0) as Hm. rewrite Zle_Qle in Hm.
    change (inject_Z 0) with 0%Q in Hm.
    exists (inject_Z (nearest_even q) * pow2 x)%Q.
    split; [reflexivity|]. split; [nra|].
    assert (Hx : (pow2 x <= (Z.pos n # ad) * (1 # 2 ^ 52) + (1 # 2 ^ 1074))%Q).
    { destruct (Z_le_gt_dec (-1074) (e - 52)) as [Hn|Hs].
      - replace x with (e - 52) in * by (unfold x; lia).
        assert (E : (pow2 (e - 52) == pow2 e * (1 # 2 ^ 52))%Q).
        { replace (e - 52) with (e + (-52)) by lia. rewrite pow2_add. reflexivity. }
        assert (H52 : (0 < 1 # 2 ^ 52)%Q) by reflexivity.
        assert (H0 : (0 < 1 # 2 ^ 1074)%Q) by reflexivity.
        rewrite E. set (c := (1 # 2 ^ 52)%Q) in *. set (t := (1 # 2 ^ 1074)%Q) in *.
        nra.
      - replace x with (-1074) in * by (unfold x; lia).
        change (pow2 (-1074)) with (1 # 2 ^ 1074)%Q.
        assert (H0 : (0 <= (Z.pos n # ad) * (1 # 2 ^ 52))%Q)
          by (apply Qmult_le_0_compat; discriminate).
        lra. }
    unfold rounding_error.
    assert (Hh : ((1 # 2) * pow2 x
                  <= (Z.pos n # ad) * (1 # 2 ^ 53) + (1 # 2 ^ 1075))%Q).
    { assert (E53 : (1 # 2 ^ 53 == (1 # 2) * (1 # 2 ^ 52))%Q) by reflexivity.
      assert (E1075 : (1 # 2 ^ 1075 == (1 # 2) * (1 # 2 ^ 1074))%Q) by reflexivity.
      rewrite E53, E1075.
      set (c := (1 # 2 ^ 52)%Q) in *. set (t := (1 # 2 ^ 1074)%Q) in *. lra. }
    split; nra.
Qed.

(** *** The period *)

Lemma div64_nonzero (f : Q) :
  ~ (f == 0)%Q -> div64 (num 1000) (Fin f) = binary64 (inject_Z 1000 / f).
Proof.
  intros Hf. unfold div64, div, num.
  assert (E : Qis_zero f = false).
  { unfold Qis_zero. destruct (Qeq_bool f 0) eqn:E; [|reflexivity].
    apply Qeq_bool_iff in E. contradiction. }
  rewrite E. reflexivity.
Qed.

Lemma quotient_range (f : Q) :
  (1 # 1000 <= f)%Q ->
  (0 < inject_Z 1000 / f)%Q /\ (inject_Z 1000 / f <= inject_Z (2 ^ 20))%Q.
Proof.
  intros Hf. assert (H0 : (0 < f)%Q) by lra. split.
  - apply Qlt_shift_div_l; [exact H0|]. rewrite Qmult_0_l. reflexivity.
  - apply Qle_shift_div_r; [exact H0|].
    change (inject_Z 1000) with (1000 # 1)%Q.
    change (inject_Z (2 ^ 20)) with (1048576 # 1)%Q. lra.
Qed.

(** From 0.001 Hz on, the quotient is a finite double within 2^-33 of the
    exact one, and the period is the larger of 10 and its rounding. *)
Lemma periodMs_quotient (f : Q) :
  (1 # 1000 <= f)%Q ->
  exists q,
    div64 (num 1000) (Fin f) = Fin q
    /\ (0 <= q)%Q
    /\ (inject_Z 1000 / f - (1 # 2 ^ 33) <= q <= inject_Z 1000 / f + (1 # 2 ^ 33))%Q
    /\ periodMs (Fin f) = num (Z.max 10 (round q)).
Proof.
  intros Hf. destruct (quotient_range f Hf) as [H0 H20].
  destruct (binary64_near _ H0 H20) as (q & E & Hq0 & Hq).
  exists q. unfold periodMs. rewrite div64_nonzero by lra.
  rewrite E. repeat split; try assumption; try apply Hq.
  simpl Math_round. apply Math_max_num.
Qed.

Lemma round_below (q : Q) (k : Z) : (q < inject_Z k + (1 # 2))%Q -> round q <= k.
Proof.
  intros H. destruct (round_nearest q) as [Hlo _].
  assert (Hlt : (inject_Z (round q) < inject_Z k + 1)%Q) by lra.
  change 1%Q with (inject_Z 1) in Hlt.
  rewrite <- inject_Z_plus, <- Zlt_Qlt in Hlt. lia.
Qed.

(** From 96 Hz on the period is the floor of 10 ms. *)
Lemma periodMs_floor (f : Q) : (inject_Z 96 <= f)%Q -> periodMs (Fin f) = num 10.
Proof.
  intros H96. change (inject_Z 96) with (96 # 1)%Q in H96.
  destruct (periodMs_quotient f ltac:(lra)) as (q & _ & _ & [_ Hq] & ->).
  assert (Hx : (inject_Z 1000 / f <= 1000 # 96)%Q).
  { apply Qle_shift_div_r; [lra|]. change (inject_Z 1000) with (1000 # 1)%Q. lra. }
  assert (Hr : round q <= 10).
  { apply round_below. change (inject_Z 10) with (10 # 1)%Q.
    assert (Hc : ((1000 # 96) + (1 # 2 ^ 33) < (10 # 1) + (1 # 2))%Q) by reflexivity.
    lra. }
  now rewrite Z.max_l by lia.
Qed.

(** Whole-number frequencies up to 95 Hz, each one computed. *)
Lemma periodMs_whole_small (n : nat) :
  (n < 95)%nat ->
  periodMs (num (Z.of_nat (S n)))
  = num (Z.max 10 (round (inject_Z 1000 / inject_Z (Z.of_nat (S n))))).
Proof.
  intros Hn.
  do 95 (destruct n as [|n]; [vm_compute; reflexivity|]).
  lia.
Qed.

(** On whole-number frequencies binary rounding makes no difference. *)
Lemma periodMs_whole (hz : Z) :
  1 <= hz ->
  periodMs (num hz) = num (Z.max 10 (round (inject_Z 1000 / inject_Z hz))).
Proof.
  intros Hhz. destruct (Z_lt_le_dec hz 96) as [Hs|Hl].
  - replace hz with (Z.of_nat (S (Z.to_nat (hz - 1)))) by lia.
    apply periodMs_whole_small. lia.
  - assert (H96 : (inject_Z 96 <= inject_Z hz)%Q) by (rewrite <- Zle_Qle; exact Hl).
    unfold num at 1. rewrite (periodMs_floor _ H96). f_equal.
    change (inject_Z 96) with (96 # 1)%Q in H96.
    assert (Hx : (inject_Z 1000 / inject_Z hz <= 1000 # 96)%Q).
    { apply Qle_shift_div_r; [lra|]. change (inject_Z 1000) with (1000 # 1)%Q. lra. }
    apply round_mono in Hx. change (round (1000 # 96)) with 10 in Hx. lia.
Qed.

(** C2, the counterexample.  95.23809523809524 is a binary64 number; the
    exact quotient 1000/f lies just below 10.5 and rounds to 10, but the
    binary64 quotient is 10.5 itself, so the period is 11. *)
Lemma C2_exact_rounding_counterexample :
  is_binary64 sampleHz_95_238 = true
  /\ (exists q, div64 (num 1000) (Fin sampleHz_95_238) = Fin q /\ (q == 21 # 2)%Q)
  /\ periodMs (Fin sampleHz_95_238) = num 11
  /\ Z.max 10 (round (inject_Z 1000 / sampleHz_95_238)) = 10.
Proof.
  split; [vm_compute; reflexivity|].
  split; [eexists; split; vm_compute; reflexivity|].
  split; vm_compute; reflexivity.
Qed.

(** For every positive frequency: the quotient overflows, which needs
    1000/f >= 2^1023, or it is a finite double within the rounding error
    of the exact one and the period is the larger of 10 and its rounding. *)
Lemma periodMs_general (f : Q) :
  (0 < f)%Q ->
  ((pow2 1023 <= inject_Z 1000 / f)%Q /\ periodMs (Fin f) = PosInf)
  \/ exists q,
       div64 (num 1000) (Fin f) = Fin q
       /\ (inject_Z 1000 / f - rounding_error (inject_Z 1000 / f) <= q
           <= inject_Z 1000 / f + rounding_error (inject_Z 1000 / f))%Q
       /\ periodMs (Fin f) = num (Z.max 10 (round q)).
Proof.
  intros Hf.
  assert (Ha : (0 < inject_Z 1000 / f)%Q).
  { apply Qlt_shift_div_l; [exact Hf|]. rewrite Qmult_0_l. reflexivity. }
  unfold periodMs. rewrite div64_nonzero by lra.
  destruct (binary64_error _ Ha) as [[Hbig ->] | (q & -> & _ & Hq)].
  - left. split; [exact Hbig | reflexivity].
  - right. exists q. split; [reflexivity|]. split; [exact Hq|].
    simpl Math_round. apply Math_max_num.
Qed.

(** C2, as the code has it.  For every positive frequency f the tick
    period is the larger of 10 and the integer nearest (ties upwards) to
    the binary64 quotient of 1000 by f, which lies within the rounding
    error of the exact quotient (only a quotient of 2^1023 or more can
    overflow, and then the period is Infinity).  So the period is
    max(10, round(1000/f)) whenever 1000/f keeps that distance from the
    half-way points, and for every whole-number frequency: 200 ms at 5 Hz,
    and the floor of 10 ms at 1000 Hz. *)
Theorem C2_sampler_period (f : Q) :
  (0 < f)%Q ->
  (((pow2 1023 <= inject_Z 1000 / f)%Q /\ periodMs (Fin f) = PosInf)
   \/ exists q n,
        div64 (num 1000) (Fin f) = Fin q
        /\ (inject_Z 1000 / f - rounding_error (inject_Z 1000 / f) <= q
            <= inject_Z 1000 / f + rounding_error (inject_Z 1000 / f))%Q
        /\ nearest_ties_up q n
        /\ periodMs (Fin f) = num (Z.max 10 n)
        /\ (forall k,
               (inject_Z k - (1 # 2) + rounding_error (inject_Z 1000 / f)
                <= inject_Z 1000 / f)%Q ->
               (inject_Z 1000 / f
                < inject_Z k + (1 # 2) - rounding_error (inject_Z 1000 / f))%Q ->
               n = k
               /\ periodMs (Fin f) = num (Z.max 10 (round (inject_Z 1000 / f)))))
  /\ (forall hz, 1 <= hz ->
        periodMs (num hz) = num (Z.max 10 (round (inject_Z 1000 / inject_Z hz))))
  /\ periodMs (num 5) = num 200
  /\ periodMs (num 1000) = num 10.
Proof.
  intros Hf. split; [|split; [exact periodMs_whole | split; reflexivity]].
  destruct (periodMs_general f Hf) as [Hinf | (q & E & Hq & Ep)]; [left; exact Hinf|].
  right. exists q, (round q). split; [exact E|]. split; [exact Hq|].
  split; [apply round_nearest|]. split; [exact Ep|].
  intros k Hlo Hhi.
  assert (Ha : (0 < inject_Z 1000 / f)%Q).
  { apply Qlt_shift_div_l; [exact Hf|]. rewrite Qmult_0_l. reflexivity. }
  assert (Herr : (0 < rounding_error (inject_Z 1000 / f))%Q).
  { unfold rounding_error.
    assert (H53 : (0 < 1 # 2 ^ 53)%Q) by reflexivity.
    assert (H1075 : (0 < 1 # 2 ^ 1075)%Q) by reflexivity.
    set (c := (1 # 2 ^ 53)%Q) in *. set (t := (1 # 2 ^ 1075)%Q) in *. nra. }
  assert (Hk : round q = k).
  { apply (nearest_unique q); [apply round_nearest|].
    unfold nearest_ties_up. split; lra. }
  assert (Hx : round (inject_Z 1000 / f) = k).
  { apply (nearest_unique (inject_Z 1000 / f)); [apply round_nearest|].
    unfold nearest_ties_up. split; lra. }
  split; [exact Hk|]. rewrite Ep, Hk, Hx. reflexivity.
Qed.

Lemma C2_sampler_period_witness :
  (((pow2 1023 <= inject_Z 1000 / (3 # 1))%Q /\ periodMs (Fin (3 # 1)) = PosInf)
   \/ exists q n,
        div64 (num 1000) (Fin (3 # 1)) = Fin q
        /\ (inject_Z 1000 / (3 # 1) - rounding_error (inject_Z 1000 / (3 # 1)) <= q
            <= inject_Z 1000 / (3 # 1) + rounding_error (inject_Z 1000 / (3 # 1)))%Q
        /\ nearest_ties_up q n
        /\ periodMs (Fin (3 # 1)) = num (Z.max 10 n)
        /\ (forall k,
               (inject_Z k - (1 # 2) + rounding_error (inject_Z 1000 / (3 # 1))
                <= inject_Z 1000 / (3 # 1))%Q ->
               (inject_Z 1000 / (3 # 1)
                < inject_Z k + (1 # 2) - rounding_error (inject_Z 1000 / (3 # 1)))%Q ->
               n = k
               /\ periodMs (Fin (3 # 1))
                  = num (Z.max 10 (round (inject_Z 1000 / (3 # 1))))))
  /\ (forall hz, 1 <= hz ->
        periodMs (num hz) = num (Z.max 10 (round (inject_Z 1000 / inject_Z hz))))
  /\ periodMs (num 5) = num 200
  /\ periodMs (num 1000) = num 10.
Proof.
  apply (C2_sampler_period (3 # 1)). reflexivity.
Defined.

End Period.

(* ================================================================== *)
(** ** Theorems: the latest-gaze slot and the sampler *)
(* ================================================================== *)

Section Sampler.
Import Js GazeRecorder RecorderSpec.

Lemma gazeListener_discards data ts now r :
  discarded data = true -> gazeListener data ts now r = r.
Proof.
  unfold discarded, gazeListener. intros H.
  destruct (stopped r); [reflexivity|].
  destruct data as [[dx dy]|]; [|reflexivity].
  now rewrite H.
Qed.

Lemma gazeListener_slotFinite data ts now r :
  slotFinite r -> slotFinite (gazeListener data ts now r).
Proof.
  unfold gazeListener. intros H.
  destruct (stopped r); [exact H|].
  destruct data as [[dx dy]|]; [|exact H].
  destruct (negb (isFinite dx) || negb (isFinite dy)) eqn:E; [exact H|].
  apply orb_false_elim in E. destruct E as [Ex Ey].
  apply negb_false_iff in Ex, Ey.
  unfold slotFinite. simpl. auto.
Qed.

Lemma samplerTick_lastGaze e r : lastGaze (samplerTick e r) = lastGaze r.
Proof. unfold samplerTick. destruct (lastGaze r) eqn:E; simpl; congruence. Qed.

Lemma step_slotFinite ev c :
  slotFinite (refs c) -> slotFinite (refs (step ev c)).
Proof.
  intros H. destruct ev; simpl; try exact H.
  - now apply gazeListener_slotFinite.
  - destruct (recording (state c)); [|exact H].
    unfold slotFinite. simpl. now rewrite samplerTick_lastGaze.
  - destruct (negb (ready (state c)) || recording (state c)); exact H.
  - unfold clickDot. destruct (currentDot c) as [[x y]|]; exact H.
  - destruct (negb (ready (state c)) || calibrating (state c) || recording (state c));
      exact H.
  - destruct (negb (recording (state c))); exact H.
  - unfold audioTick. destruct (audioRecordingRef (refs c)); exact H.
Qed.

Lemma run_slotFinite evs c :
  slotFinite (refs c) -> slotFinite (refs (run evs c)).
Proof.
  revert c. induction evs as [|ev evs IH]; intros c H; simpl; [exact H|].
  apply IH. now apply step_slotFinite.
Qed.

(** Clamping a finite number between finite bounds gives a finite number. *)
Lemma clamp_finite n lo hi :
  isFinite n = true -> exists q, clamp n (num lo) (num hi) = Fin q.
Proof.
  destruct n as [q| | |]; try discriminate. intros _.
  unfold clamp, num, Math_min, Math_max.
  destruct (Qle_bool (inject_Z hi) q);
    match goal with |- context [Qle_bool ?a ?b] => destruct (Qle_bool a b) end;
    eauto.
Qed.

Lemma rounded_value_finite q : exists z, rounded_value (Fin q) = VInt z.
Proof. unfold rounded_value. simpl. eauto. Qed.

Lemma sampleRow_gaze_px e r g :
  get (sampleRow e r g) "gaze_x_px"
  = rounded_value (clamp (gx g) (num 0) (num (innerWidth (win e))))
  /\ get (sampleRow e r g) "gaze_y_px"
     = rounded_value (clamp (gy g) (num 0) (num (innerHeight (win e)))).
Proof. split; reflexivity. Qed.

(** C10. In every state the component reaches from its first render, the
    latest-gaze slot is empty or holds a point with finite x and y; a
    listener update with a missing payload or a non-finite coordinate
    leaves the refs unchanged; and the pixel coordinates of a row built
    from the slot by a tick are integers, never NaN or infinite. *)
Theorem C10_latest_gaze_is_finite p w uuid evs :
  let c := run evs (mount p w uuid) in
  slotFinite (refs c)
  /\ (forall data ts now r,
         discarded data = true -> gazeListener data ts now r = r)
  /\ (forall e g,
         lastGaze (refs c) = Some g ->
         exists zx zy,
           get (sampleRow e (refs c) g) "gaze_x_px" = VInt zx
           /\ get (sampleRow e (refs c) g) "gaze_y_px" = VInt zy).
Proof.
  intros c.
  assert (Hinv : slotFinite (refs c)).
  { apply run_slotFinite. exact I. }
  split; [exact Hinv|]. split; [apply gazeListener_discards|].
  intros e g Hg. unfold slotFinite in Hinv. rewrite Hg in Hinv.
  destruct Hinv as [Hx Hy].
  destruct (clamp_finite (gx g) 0 (innerWidth (win e)) Hx) as [qx Ex].
  destruct (clamp_finite (gy g) 0 (innerHeight (win e)) Hy) as [qy Ey].
  destruct (rounded_value_finite qx) as [zx Hzx].
  destruct (rounded_value_finite qy) as [zy Hzy].
  exists zx, zy.
  destruct (sampleRow_gaze_px e (refs c) g) as [-> ->].
  rewrite Ex, Ey. auto.
Qed.

Lemma C10_latest_gaze_is_finite_witness :
  gazeListener (Some (NaN, Fin 3)) None 0
               (refs (mount (mkProps (num 5) 6) (mkWindow 1000 800 0) "u"))
  = refs (mount (mkProps (num 5) 6) (mkWindow 1000 800 0) "u").
Proof.
  apply (proj1 (proj2 (C10_latest_gaze_is_finite
                         (mkProps (num 5) 6) (mkWindow 1000 800 0) "u" []))).
  reflexivity.
Defined.

End Sampler.

Section SamplerRows.
Import Js GazeRecorder RecorderSpec.

Lemma samplerTick_no_gaze e r : lastGaze r = None -> samplerTick e r = r.
Proof. unfold samplerTick. now intros ->. Qed.

Lemma samplerTick_gaze e r g :
  lastGaze r = Some g ->
  samples (samplerTick e r) = samples r ++ [sampleRow e r g].
Proof. unfold samplerTick. now intros ->. Qed.

Lemma step_in_session ev c :
  recording (state c) = true ->
  inSession ev = true ->
  recording (state (step ev c)) = true
  /\ exists rows,
      samples (refs (step ev c)) = samples (refs c) ++ rows
      /\ List.length rows = rowsOf ev c.
Proof.
  intros Hrec Hin. unfold rowsOf.
  assert (Hnil : forall r : list object, r = r ++ []) by (intros; now rewrite app_nil_r).
  destruct ev; try discriminate Hin; simpl; rewrite ?Hrec, ?orb_true_r; simpl.
  - split; [first [exact Hrec | reflexivity]|]. exists []. destruct (lastGaze (refs c)); auto.
  - split; [first [exact Hrec | reflexivity]|]. exists []. destruct (lastGaze (refs c)); auto.
  - split; [first [exact Hrec | reflexivity]|]. exists []. split; [|now destruct (lastGaze (refs c))].
    unfold gazeListener. destruct (stopped (refs c)); [apply Hnil|].
    destruct data as [[dx dy]|]; [|apply Hnil].
    destruct (negb (isFinite dx) || negb (isFinite dy)); apply Hnil.
  - split; [first [exact Hrec | reflexivity]|].
    destruct (lastGaze (refs c)) as [g|] eqn:Hg.
    + exists [sampleRow e (refs c) g]. split; [|reflexivity].
      now apply samplerTick_gaze.
    + exists []. rewrite samplerTick_no_gaze by exact Hg. auto.
  - split; [first [exact Hrec | reflexivity]|]. exists []. destruct (lastGaze (refs c)); auto.
  - unfold clickDot. destruct (currentDot c) as [[x y]|]; simpl.
    + split.
      * unfold onCalibDotClick. simpl.
        repeat match goal with
               | |- context [if ?b then _ else _] => destruct b
               end; first [exact Hrec | reflexivity].
      * exists []. destruct (lastGaze (refs c)); auto.
    + split; [first [exact Hrec | reflexivity]|]. exists []. destruct (lastGaze (refs c)); auto.
  - split; [first [exact Hrec | reflexivity]|]. exists []. destruct (lastGaze (refs c)); auto.
  - split; [first [exact Hrec | reflexivity]|]. exists []. split; [|now destruct (lastGaze (refs c))].
    unfold audioTick. destruct (audioRecordingRef (refs c)); apply Hnil.
  - split; [first [exact Hrec | reflexivity]|]. exists []. destruct (lastGaze (refs c)); auto.
Qed.

Lemma ticksWithGaze_cons ev evs c :
  ticksWithGaze (ev :: evs) c = (rowsOf ev c + ticksWithGaze evs (step ev c))%nat.
Proof. reflexivity. Qed.

Lemma ticksWithGaze_le evs c : (ticksWithGaze evs c <= ticks evs)%nat.
Proof.
  revert c. induction evs as [|ev evs IH]; intros c; [apply Nat.le_refl|].
  rewrite ticksWithGaze_cons. specialize (IH (step ev c)).
  remember (ticksWithGaze evs (step ev c)) as k eqn:Ek. clear Ek.
  unfold rowsOf. destruct ev; simpl; try lia.
  destruct (lastGaze (refs c)); lia.
Qed.

(** C1. Within a recording session a tick that finds the latest-gaze slot
    empty changes nothing, a tick that finds a point appends exactly one
    row, and no other event touches the buffer: after a trace with N
    ticks, K of which found a point, the buffer is the old one followed
    by exactly K new rows, and K is at most N. *)
Theorem C1_one_row_per_tick_with_gaze evs c :
  recording (state c) = true ->
  forallb inSession evs = true ->
  (forall e r, lastGaze r = None -> samplerTick e r = r)
  /\ (forall e r g, lastGaze r = Some g ->
                    samples (samplerTick e r) = samples r ++ [sampleRow e r g])
  /\ (exists rows,
         samples (refs (run evs c)) = samples (refs c) ++ rows
         /\ List.length rows = ticksWithGaze evs c)
  /\ (ticksWithGaze evs c <= ticks evs)%nat.
Proof.
  intros Hrec Hin.
  split; [apply samplerTick_no_gaze|]. split; [apply samplerTick_gaze|].
  split; [|apply ticksWithGaze_le].
  revert c Hrec. induction evs as [|ev evs IH]; intros c Hrec.
  - exists []. simpl. now rewrite app_nil_r.
  - simpl in Hin. apply andb_true_iff in Hin. destruct Hin as [Hev Hevs].
    destruct (step_in_session ev c Hrec Hev) as (Hrec' & rows1 & E1 & L1).
    destruct (IH Hevs (step ev c) Hrec') as (rows2 & E2 & L2).
    exists (rows1 ++ rows2). split.
    + change (run (ev :: evs) c) with (run evs (step ev c)).
      now rewrite E2, E1, app_assoc.
    + rewrite ticksWithGaze_cons, length_app. lia.
Qed.

Lemma C1_one_row_per_tick_with_gaze_witness :
  (exists rows,
      samples (refs (run sampleSession recordingComponent))
      = samples (refs recordingComponent) ++ rows
      /\ List.length rows = ticksWithGaze sampleSession recordingComponent)
  /\ (ticksWithGaze sampleSession recordingComponent <= ticks sampleSession)%nat.
Proof.
  apply (proj2 (proj2 (C1_one_row_per_tick_with_gaze
                         sampleSession recordingComponent eq_refl eq_refl))).
Defined.

Lemma sampleSession_counts :
  ticks sampleSession = 4%nat
  /\ ticksWithGaze sampleSession recordingComponent = 3%nat
  /\ List.length (samples (refs (run sampleSession recordingComponent))) = 3%nat.
Proof. repeat split. Qed.

End SamplerRows.

(* ================================================================== *)
(** ** Theorems: calibration *)
(* ================================================================== *)

Section Calibration.
Import Js GazeRecorder RecorderSpec.

Lemma clickDots_snoc n c :
  clickDots (S n) c
  = match clickDots n c with
    | Some c' => clickDot c'
    | None => None
    end.
Proof.
  revert c. induction n as [|n IH]; intros c.
  - simpl. now destruct (clickDot c).
  - change (clickDots (S (S n)) c)
      with (match clickDot c with Some c' => clickDots (S n) c' | None => None end).
    destruct (clickDot c) as [c1|] eqn:E.
    + rewrite IH. simpl. now rewrite E.
    + simpl. now rewrite E.
Qed.

Ltac proj_simpl :=
  cbn [props refs calibPts state recordedPositions set_calibration
       ready recording calibrating status calibIdx calibClicks].

Lemma calibration_run (c : Component) (n : nat) :
  let T := clicksPerCalibrationPoint (props c) in
  0 < T ->
  calibPts c <> [] ->
  Z.of_nat n <= T * Z.of_nat (List.length (calibPts c)) ->
  exists c', clickDots n (startCalibration c) = Some c'
             /\ CalibrationAfter c T n c'.
Proof.
  intros T HT Hpts. set (L := Z.of_nat (List.length (calibPts c))).
  assert (HL : 0 < L).
  { unfold L. destruct (calibPts c); [congruence | simpl; lia]. }
  induction n as [|n IH]; intros Hn.
  - exists (startCalibration c). split; [reflexivity|].
    constructor; simpl; try reflexivity.
    + fold L. symmetry. apply Z.ltb_lt. nia.
    + fold L. assert (E : (0 <? T * L) = true) by (apply Z.ltb_lt; nia).
      now rewrite E.
    + now rewrite app_nil_r.
  - destruct IH as (c1 & Hrun & Inv); [lia|].
    destruct Inv as [Hp Hr Hg Hi Hc Hcal Hst Hrec]. fold L in Hcal, Hst.
    assert (Hlt : Z.of_nat n < T * L) by lia.
    assert (Hidx : 0 <= Z.of_nat n / T < L).
    { split; [apply Z.div_pos; lia | apply Z.div_lt_upper_bound; lia]. }
    rewrite clickDots_snoc, Hrun.
    apply Z.ltb_lt in Hlt. rewrite Hlt in Hcal, Hst. apply Z.ltb_lt in Hlt.
    unfold clickDot, currentDot. rewrite Hcal, Hg, Hi. fold L.
    assert (Eidx : (Z.of_nat n / T <? L) = true) by (apply Z.ltb_lt; lia).
    rewrite Eidx. simpl andb.
    assert (Hnth : nth_error (calibPts c) (Z.to_nat (Z.of_nat n / T))
                   = Some (clickedPoint (calibPts c) T n)).
    { apply nth_error_nth'. unfold L in Hidx. lia. }
    rewrite Hnth. destruct (clickedPoint (calibPts c) T n) as [x y] eqn:Ept.
    eexists. split; [reflexivity|].
    assert (Hdm : Z.of_nat (S n) = Z.of_nat n + 1) by lia.
    pose proof (Z.div_mod (Z.of_nat n) T ltac:(lia)) as Hdiv.
    pose proof (Z.mod_pos_bound (Z.of_nat n) T HT) as Hmod.
    pose proof (Z.div_mod (Z.of_nat n + 1) T ltac:(lia)) as Hdiv'.
    pose proof (Z.mod_pos_bound (Z.of_nat n + 1) T HT) as Hmod'.
    assert (Hrecorded :
              (recordedPositions c ++ map (clickedPoint (calibPts c) T) (seq 0 n))
                ++ [(x, y)]
              = recordedPositions c ++ map (clickedPoint (calibPts c) T) (seq 0 (S n))).
    { rewrite seq_S, map_app, <- app_assoc. cbn [map Nat.add]. now rewrite Ept. }
    unfold onCalibDotClick. rewrite Hp, Hg, Hi, Hc, Hrec, Hrecorded. fold T. fold L.
    destruct (T <=? Z.of_nat n mod T + 1) eqn:Ethr.
    + apply Z.leb_le in Ethr.
      assert (Hq : Z.of_nat (S n) / T = Z.of_nat n / T + 1) by (rewrite Hdm; nia).
      assert (Hm : Z.of_nat (S n) mod T = 0) by (rewrite Hdm; nia).
      destruct (L <=? Z.of_nat n / T + 1) eqn:Elast.
      * apply Z.leb_le in Elast.
        assert (Edone : (Z.of_nat (S n) <? T * L) = false) by (apply Z.ltb_ge; nia).
        constructor; proj_simpl; fold L; rewrite ?Hq, ?Hm, ?Edone;
          first [reflexivity | assumption].
      * apply Z.leb_gt in Elast.
        assert (Emore : (Z.of_nat (S n) <? T * L) = true) by (apply Z.ltb_lt; nia).
        constructor; proj_simpl; fold L; rewrite ?Hq, ?Hm, ?Emore;
          first [reflexivity | assumption].
    + apply Z.leb_gt in Ethr.
      assert (Hq : Z.of_nat (S n) / T = Z.of_nat n / T) by (rewrite Hdm; nia).
      assert (Hm : Z.of_nat (S n) mod T = Z.of_nat n mod T + 1) by (rewrite Hdm; nia).
      assert (Emore : (Z.of_nat (S n) <? T * L) = true) by (apply Z.ltb_lt; nia).
      constructor; proj_simpl; fold L; rewrite ?Hq, ?Hm, ?Emore;
        first [reflexivity | assumption].
Qed.

End Calibration.

Section CalibrationClaims.
Import Js GazeRecorder RecorderSpec.

Lemma make9PointGrid_length w h : List.length (make9PointGrid w h) = 9%nat.
Proof. reflexivity. Qed.

Lemma no_click_when_done c :
  calibrating (state c) = false -> clickDot c = None.
Proof. unfold clickDot, currentDot. now intros ->. Qed.

(** C6. With the 3-by-3 grid and 6 clicks per point, for every n up to 54
    the first n clicks are all possible and leave the point index at n/6
    and the click count at n mod 6 (so each group of 6 clicks advances the
    index by 1 and resets the count to 0); calibration is still running
    for n below 54 and done at n = 54, after which no dot can be clicked;
    the k-th click is made on grid point k/6, and the grid is in
    row-major order. *)
Theorem C6_calibration_takes_54_clicks (c : Component) (w h : Z) :
  clicksPerCalibrationPoint (props c) = 6 ->
  calibPts c = make9PointGrid w h ->
  (forall n, (n <= 54)%nat ->
     exists c',
       clickDots n (startCalibration c) = Some c'
       /\ calibIdx (state c') = Z.of_nat n / 6
       /\ calibClicks (state c') = Z.of_nat n mod 6
       /\ calibrating (state c') = (n <? 54)%nat
       /\ status (state c')
          = (if (n <? 54)%nat then "calibrating" else "calibration done")%string
       /\ recordedPositions c'
          = recordedPositions c
              ++ map (clickedPoint (make9PointGrid w h) 6) (seq 0 n))
  /\ clickDots 55 (startCalibration c) = None
  /\ make9PointGrid w h = rowMajorGrid w h.
Proof.
  intros HT Hpts.
  assert (Hrun : forall n, (n <= 54)%nat ->
            exists c', clickDots n (startCalibration c) = Some c'
                       /\ CalibrationAfter c 6 n c').
  { intros n Hn. pose proof (calibration_run c n) as H. cbv zeta in H.
    rewrite HT, Hpts, make9PointGrid_length in H.
    apply H; [lia | discriminate | lia]. }
  assert (Hbound : forall n, (Z.of_nat n <? 6 * Z.of_nat 9) = (n <? 54)%nat).
  { intros n. destruct (Nat.ltb_spec n 54); [apply Z.ltb_lt | apply Z.ltb_ge]; lia. }
  split; [|split; [|reflexivity]].
  - intros n Hn. destruct (Hrun n Hn) as (c' & Hc' & Inv).
    destruct Inv as [_ _ _ Hi Hc Hcal Hst Hrec].
    rewrite Hpts, make9PointGrid_length, Hbound in Hcal, Hst.
    rewrite Hpts in Hrec.
    exists c'. repeat split; assumption.
  - destruct (Hrun 54%nat (Nat.le_refl _)) as (c' & Hc' & Inv).
    rewrite clickDots_snoc, Hc'. apply no_click_when_done.
    rewrite (ca_calibrating _ _ _ _ Inv), Hpts, make9PointGrid_length.
    reflexivity.
Qed.

Lemma C6_calibration_takes_54_clicks_witness :
  clickDots 55 (startCalibration sampleComponent) = None.
Proof.
  apply (proj1 (proj2 (C6_calibration_takes_54_clicks sampleComponent 1000 800
                         eq_refl eq_refl))).
Defined.

(** The grid is computed when the component is first rendered. *)
Lemma step_calibPts ev c : calibPts (step ev c) = calibPts c.
Proof.
  destruct ev; simpl; try reflexivity;
    repeat match goal with
           | |- context [if ?b then _ else _] => destruct b
           end; try reflexivity.
  unfold clickDot. now destruct (currentDot c) as [[x y]|].
Qed.

Lemma run_calibPts evs c : calibPts (run evs c) = calibPts c.
Proof.
  revert c. induction evs as [|ev evs IH]; intros c; simpl; [reflexivity|].
  now rewrite IH, step_calibPts.
Qed.

(** C7 as stated fails: first rendered in a 1000 by 800 window and
    started after the window was resized to 500 by 400, calibration uses
    the grid of the 1000 by 800 window. *)
Lemma C7_grid_not_recomputed_on_start :
  ~ gridRecomputedAtStart (mkProps (num 5) 6) (mkWindow 1000 800 0)
      (mkWindow 500 400 0) "session" [EReady].
Proof. unfold gridRecomputedAtStart. intros H. discriminate H. Qed.

(** C7, amended. Every start of calibration, in whatever state the
    component is, sets the point index and the click count to 0, sets the
    calibrating flag and the status, and changes nothing else; the grid
    in use is the one computed at the first render from the window of
    that moment. *)
Theorem C7_start_resets_calibration_state p w uuid evs :
  let c := run evs (mount p w uuid) in
  let c' := startCalibration c in
  calibIdx (state c') = 0
  /\ calibClicks (state c') = 0
  /\ calibrating (state c') = true
  /\ status (state c') = "calibrating"%string
  /\ calibPts c' = make9PointGrid (innerWidth w) (innerHeight w)
  /\ refs c' = refs c
  /\ props c' = props c
  /\ ready (state c') = ready (state c)
  /\ recording (state c') = recording (state c).
Proof.
  intros c c'. repeat split.
  unfold c', c. cbn [startCalibration with_state calibPts].
  now rewrite run_calibPts.
Qed.

End CalibrationClaims.

(* ================================================================== *)
(** ** Theorems: the audio recorder *)
(* ================================================================== *)

Section Audio.
Import Js AudioRecorder AudioSpec.

Lemma start_while_recording env id meta h :
  isSupported env = true ->
  isRecording h = true ->
  startRecording env id meta h = (h, pendingIdRef h).
Proof. unfold startRecording. now intros -> ->. Qed.

(** What a start from the idle state does, by outcome. *)
Lemma start_idle_failure env id meta h e :
  isSupported env = true ->
  isRecording h = false ->
  caught env h = Some e ->
  let h' := fst (startRecording env id meta h) in
  snd (startRecording env id meta h) = None
  /\ isRecording h' = false
  /\ error h' = thrown_message e
  /\ recordings h' = recordings h
  /\ mediaRecorderRef h' = mediaRecorderRef h.
Proof.
  unfold startRecording, caught. intros -> -> H. cbn [negb isRecording streamRef].
  destruct (streamRef h) as [s|]; [|destruct (getUserMedia env) as [e0|s]];
    try (injection H as <-; cbn; auto);
    (destruct (newMediaRecorder env) as [e1|mime];
     [injection H as <-; cbn; auto
     | destruct (recorderStart env) as [e2|];
       [injection H as <-; cbn; auto | discriminate H]]).
Qed.

Lemma start_idle_success env id meta h :
  isSupported env = true ->
  isRecording h = false ->
  caught env h = None ->
  let h' := fst (startRecording env id meta h) in
  snd (startRecording env id meta h) = Some (recordingIdOf id env)
  /\ isRecording h' = true
  /\ pendingIdRef h' = Some (recordingIdOf id env)
  /\ recordings h' = recordings h
  /\ (exists mime,
         mediaRecorderRef h' = Some (List.length (recorders h))
         /\ recorders h'
            = recorders h ++ [mkRecorder mime (recordingIdOf id env) (now env) true]).
Proof.
  unfold startRecording, caught. intros -> -> H. cbn [negb isRecording streamRef].
  destruct (streamRef h) as [s|]; [|destruct (getUserMedia env) as [e0|s]];
    try discriminate H;
    (destruct (newMediaRecorder env) as [e1|mime]; [discriminate H|];
     destruct (recorderStart env) as [e2|]; [discriminate H|];
     cbn; repeat split; eauto).
Qed.

Lemma platform_error_message e :
  isPlatformError e = true -> thrown_message e <> EmptyString.
Proof.
  destruct e as [name message| | |]; try discriminate. simpl.
  intros Hname. apply negb_true_iff in Hname.
  unfold error_toString. rewrite Hname.
  destruct (String.eqb message EmptyString) eqn:E.
  - now apply String.eqb_neq.
  - now apply String.eqb_neq.
Qed.

Lemma onerror_message message h :
  error (onerror message h) <> EmptyString /\ isRecording (onerror message h) = false.
Proof.
  unfold onerror. simpl. split; [|reflexivity].
  destruct message as [s|]; [|discriminate].
  destruct (String.eqb s EmptyString) eqn:E; [discriminate|].
  now apply String.eqb_neq.
Qed.

End Audio.

Section AudioClaims.
Import Js AudioRecorder AudioSpec.

Lemma deactivate_keeps_id k0 rs k r :
  nth_error rs k = Some r ->
  exists r', nth_error (deactivate k0 rs) k = Some r'
             /\ recRecordingId r' = recRecordingId r.
Proof.
  revert k0 k. induction rs as [|r0 rs IH]; intros k0 k H.
  - destruct k; discriminate H.
  - destruct k0 as [|k0], k as [|k]; simpl in *.
    + injection H as <-. eauto.
    + eauto.
    + eauto.
    + now apply IH.
Qed.

Lemma step_pendingIsCurrent ev h :
  pendingIsCurrent h -> pendingIsCurrent (step ev h).
Proof.
  intros Inv. destruct ev; simpl.
  - destruct (isSupported env) eqn:Hs.
    + destruct (isRecording h) eqn:Hr.
      * now rewrite start_while_recording.
      * destruct (caught env h) as [e|] eqn:Hc.
        -- destruct (start_idle_failure env id meta h e Hs Hr Hc) as (_ & Hidle & _).
           intros Hrec. congruence.
        -- destruct (start_idle_success env id meta h Hs Hr Hc)
             as (_ & _ & Hp & _ & mime & Hm & Hrs).
           intros _.
           exists (List.length (recorders h)),
             (mkRecorder mime (recordingIdOf id env) (now env) true).
           split; [exact Hm|]. split; [|exact Hp].
           rewrite Hrs, nth_error_app2, Nat.sub_diag by apply Nat.le_refl.
           reflexivity.
    + unfold startRecording. rewrite Hs. exact Inv.
  - unfold stopRecording. destruct (mediaRecorderRef h) as [k0|] eqn:Hk0; [|exact Inv].
    intros Hrec. destruct (Inv Hrec) as (k & r & Hk & Hnth & Hp).
    destruct (deactivate_keeps_id k0 (recorders h) k r Hnth) as (r' & Hnth' & Hid).
    exists k, r'. simpl. rewrite Hid. rewrite <- Hk0. auto.
  - destruct (nth_error (recorders h) k); [|exact Inv]. intros H. discriminate H.
  - destruct (nth_error (recorders h) k); [|exact Inv]. intros H. discriminate H.
  - destruct (nth_error (recorders h) k); [|exact Inv].
    unfold ondataavailable. destruct data as [d|]; [|exact Inv].
    destruct (0 <? String.length d)%nat; exact Inv.
  - exact Inv.
  - exact Inv.
Qed.

Lemma run_pendingIsCurrent evs h :
  pendingIsCurrent h -> pendingIsCurrent (run evs h).
Proof.
  revert h. induction evs as [|ev evs IH]; intros h Inv; simpl; [exact Inv|].
  apply IH. now apply step_pendingIsCurrent.
Qed.

(** C8. A start while the recording flag is set returns the pending id
    and leaves the whole hook state as it was (recordings list, recorder
    objects, references); in every state reached from the initial one the
    pending id then is the id of the recorder in use; so a start that
    follows a successful start returns the id of the first and changes
    nothing. *)
Theorem C8_start_while_recording_is_idempotent :
  (forall env id meta h,
      isSupported env = true ->
      isRecording h = true ->
      startRecording env id meta h = (h, pendingIdRef h))
  /\ (forall evs, pendingIsCurrent (run evs initial))
  /\ (forall env1 id1 meta1 env2 id2 meta2 h,
         isSupported env1 = true ->
         isSupported env2 = true ->
         isRecording h = false ->
         caught env1 h = None ->
         let h1 := fst (startRecording env1 id1 meta1 h) in
         snd (startRecording env1 id1 meta1 h) = Some (recordingIdOf id1 env1)
         /\ startRecording env2 id2 meta2 h1 = (h1, Some (recordingIdOf id1 env1))).
Proof.
  split; [exact start_while_recording|]. split.
  - intros evs. apply run_pendingIsCurrent. intros H. discriminate H.
  - intros env1 id1 meta1 env2 id2 meta2 h Hs1 Hs2 Hr Hc h1.
    destruct (start_idle_success env1 id1 meta1 h Hs1 Hr Hc) as (Hret & Hrec & Hp & _).
    split; [exact Hret|].
    fold h1 in Hrec, Hp. rewrite <- Hp. now apply start_while_recording.
Qed.

Lemma C8_start_while_recording_is_idempotent_witness :
  let h1 := fst (startRecording (sampleEnv "a") None None initial) in
  snd (startRecording (sampleEnv "a") None None initial) = Some "a"%string
  /\ startRecording (sampleEnv "b") (Some "c"%string) None h1 = (h1, Some "a"%string).
Proof.
  apply (proj2 (proj2 C8_start_while_recording_is_idempotent)
           (sampleEnv "a") None None (sampleEnv "b") (Some "c"%string) None initial
           eq_refl eq_refl eq_refl eq_refl).
Defined.

(** C9. When one of the calls that acquire the audio input throws a
    platform error, startRecording returns null with a non-empty error
    message (the text of what was thrown) and the recording flag unset;
    when a recorder reports an error during capture, the handler sets a
    non-empty message and unsets the recording flag; in both cases the
    next start is not short-circuited by the flag. *)
Theorem C9_failures_surface_and_return_to_idle :
  (forall env id meta h e,
      isSupported env = true ->
      isRecording h = false ->
      caught env h = Some e ->
      isPlatformError e = true ->
      let h' := fst (startRecording env id meta h) in
      snd (startRecording env id meta h) = None
      /\ error h' = thrown_message e
      /\ error h' <> EmptyString
      /\ isRecording h' = false)
  /\ (forall message h,
         error (onerror message h) <> EmptyString
         /\ isRecording (onerror message h) = false)
  /\ (forall k message evs,
         let h := run evs initial in
         (k < List.length (recorders h))%nat ->
         error (step (EOnError k message) h) <> EmptyString
         /\ isRecording (step (EOnError k message) h) = false).
Proof.
  split; [|split].
  - intros env id meta h e Hs Hr Hc He h'.
    destruct (start_idle_failure env id meta h e Hs Hr Hc) as (Hret & Hidle & Herr & _).
    fold h' in Hidle, Herr. repeat split; try assumption.
    rewrite Herr. now apply platform_error_message.
  - exact onerror_message.
  - intros k message evs h Hk. simpl.
    destruct (nth_error (recorders h) k) eqn:E.
    + apply onerror_message.
    + apply nth_error_None in E. lia.
Qed.

Lemma C9_failures_surface_and_return_to_idle_witness :
  let h' := fst (startRecording deniedEnv None None initial) in
  snd (startRecording deniedEnv None None initial) = None
  /\ error h' = "Permission denied"%string
  /\ error h' <> EmptyString
  /\ isRecording h' = false.
Proof.
  apply (proj1 C9_failures_surface_and_return_to_idle deniedEnv None None initial
           (ErrorObject "NotAllowedError" "Permission denied")
           eq_refl eq_refl eq_refl eq_refl).
Defined.

End AudioClaims.

(* ================================================================== *)
(** ** Further properties: CSV fields and headers *)
(* ================================================================== *)

Section CsvMore.
Import Js CsvSpec.

Lemma list_ascii_of_string_app (a b : string) :
  list_ascii_of_string (a ++ b) = list_ascii_of_string a ++ list_ascii_of_string b.
Proof. induction a as [|c a IH]; simpl; [reflexivity | now rewrite IH]. Qed.

Lemma append_inv_tail (a b x : string) : (a ++ x = b ++ x)%string -> a = b.
Proof.
  intros H. apply (f_equal list_ascii_of_string) in H.
  rewrite !list_ascii_of_string_app in H. apply app_inv_tail in H.
  rewrite <- (string_of_list_ascii_of_string a), <- (string_of_list_ascii_of_string b).
  now rewrite H.
Qed.

Lemma double_quotes_inj (s1 s2 : string) :
  double_quotes s1 = double_quotes s2 -> s1 = s2.
Proof.
  revert s2. induction s1 as [|c1 s1 IH]; intros [|c2 s2]; simpl.
  - reflexivity.
  - destruct (Ascii.eqb c2 dq); discriminate.
  - destruct (Ascii.eqb c1 dq); discriminate.
  - destruct (Ascii.eqb c1 dq) eqn:E1, (Ascii.eqb c2 dq) eqn:E2; intros H.
    + apply Ascii.eqb_eq in E1, E2. injection H as H. subst. f_equal. now apply IH.
    + injection H as Hc _. apply Ascii.eqb_neq in E2. congruence.
    + injection H as Hc _. apply Ascii.eqb_neq in E1. congruence.
    + injection H as -> H. f_equal. now apply IH.
Qed.

Lemma plain_not_quoted (s body : string) :
  test_special s = false -> s <> String dq body.
Proof.
  intros Hs ->. simpl in Hs. discriminate Hs.
Qed.

(** X1. Escaping by the application shell loses nothing: two strings with
    the same escaped form are the same string. *)
Theorem App_csvEscape_injective (s1 s2 : string) :
  App.csvEscape (VStr s1) = App.csvEscape (VStr s2) -> s1 = s2.
Proof.
  unfold App.csvEscape. simpl.
  destruct (test_special s1) eqn:E1, (test_special s2) eqn:E2; intros H.
  - injection H as H. apply append_inv_tail in H. now apply double_quotes_inj.
  - symmetry in H. now apply plain_not_quoted in H.
  - now apply plain_not_quoted in H.
  - exact H.
Qed.

Lemma App_csvEscape_injective_witness : sample_field = sample_field.
Proof. apply (App_csvEscape_injective sample_field sample_field). reflexivity. Defined.





(** X3. The header emitted by the application shell lists every key of
    every row, each exactly once. *)
Theorem App_csvHeader_is_a_set (rows : list object) :
  NoDup (App.csvHeader rows)
  /\ (forall k, In k (App.csvHeader rows)
                <-> exists r, In r rows /\ In k (Object_keys r)).
Proof.
  rewrite App_csvHeader_union. unfold union_of_keys. split.
  - apply first_seen_NoDup.
  - intros k. rewrite first_seen_In, in_concat. split.
    + intros (ks & Hks & Hk). apply in_map_iff in Hks.
      destruct Hks as (r & <- & Hr). eauto.
    + intros (r & Hr & Hk). exists (Object_keys r). split; [|exact Hk].
      now apply in_map.
Qed.

End CsvMore.

(* ================================================================== *)
(** ** Further properties: hit testing *)
(* ================================================================== *)

Section HitTestMore.
Import Js JsString HitTest.

Lemma findContentContainer_find (chain : list Element) (maxHops : nat) :
  findContentContainer chain maxHops = nearestAnnotated chain maxHops.
Proof.
  unfold nearestAnnotated.
  revert chain. induction maxHops as [|hops IH]; intros [|cur parents]; simpl;
    try reflexivity.
  unfold annotated at 1. destruct (isHTMLElement cur && truthy (contentId cur));
    [reflexivity | apply IH].
Qed.

(** X4. The walk up the ancestors returns the nearest element, among the
    element hit and its next maxHops - 1 ancestors, that is an HTML element
    with a non-empty content id, and null when there is none: an annotated
    element further up is not found. *)
Theorem findContentContainer_nearest (chain : list Element) (maxHops : nat) :
  findContentContainer chain maxHops = nearestAnnotated chain maxHops
  /\ (forall c, findContentContainer chain maxHops = Some c ->
                In c (firstn maxHops chain)
                /\ isHTMLElement c = true
                /\ or_else (contentId c) EmptyString <> EmptyString)
  /\ (findContentContainer chain maxHops = None ->
      forall e, In e (firstn maxHops chain) -> annotated e = false).
Proof.
  split; [apply findContentContainer_find|].
  rewrite findContentContainer_find. unfold nearestAnnotated. split.
  - intros c H. apply find_some in H. destruct H as [Hin Ha].
    unfold annotated in Ha. apply andb_true_iff in Ha. destruct Ha as [Hh Ht].
    repeat split; try assumption.
    unfold truthy in Ht. unfold or_else.
    destruct (contentId c) as [s|]; [|discriminate].
    apply negb_true_iff in Ht. rewrite Ht. now apply String.eqb_neq.
  - intros H e He. now apply (find_none _ _ H).
Qed.

Lemma findContentContainer_nearest_witness :
  In (HitTest.mkElement true (Some "option_q1_0") (Some "question_option") "BUTTON"
                        EmptyString EmptyString (HitTest.mkRect 0 0 0 0))%string
     (firstn 10 MoreSpec.sampleChain)
  /\ or_else (Some "option_q1_0"%string) EmptyString <> EmptyString.
Proof.
  pose proof (proj1 (proj2 (findContentContainer_nearest MoreSpec.sampleChain 10))
                    _ eq_refl) as H.
  split; [exact (proj1 H) | exact (proj2 (proj2 H))].
Defined.

Lemma substring_length (n : nat) (s : string) :
  (String.length (String.substring 0 n s) <= n)%nat.
Proof.
  revert s. induction n as [|n IH]; intros [|c s]; simpl; try lia.
  specialize (IH s). lia.
Qed.

(** X5. Hit testing never fails: with no element at the point, or an
    element that is not an HTML element, every field is blank; otherwise
    the content id is that of the nearest annotated element within ten hops
    (blank when there is none), the class is cut to at most 120 characters
    and the four box fields are integers. *)
Theorem getDomContextAtPoint_fields elementFromPoint x y :
  let ctx := getDomContextAtPoint elementFromPoint x y in
  match elementFromPoint x y with
  | None => ctx = emptyContext
  | Some (el, parents) =>
      if isHTMLElement el then
        GazeRecorder.content_id ctx
        = match nearestAnnotated (el :: parents) 10 with
          | Some c => or_else (contentId c) EmptyString
          | None => EmptyString
          end
        /\ (String.length (GazeRecorder.element_class ctx) <= 120)%nat
        /\ exists bx byy bw bh,
            GazeRecorder.bbox_x ctx = VInt bx /\ GazeRecorder.bbox_y ctx = VInt byy
            /\ GazeRecorder.bbox_w ctx = VInt bw /\ GazeRecorder.bbox_h ctx = VInt bh
      else ctx = emptyContext
  end.
Proof.
  intros ctx. unfold ctx, getDomContextAtPoint.
  destruct (elementFromPoint x y) as [[el parents]|]; [|reflexivity].
  destruct (isHTMLElement el) eqn:Hel; [|reflexivity].
  cbn [negb]. rewrite findContentContainer_find.
  split; [|split].
  - destruct (nearestAnnotated (el :: parents) 10) as [c|] eqn:E; [reflexivity|].
    cbn [GazeRecorder.content_id].
    assert (Ha : annotated el = false).
    { apply (find_none _ _ E). now left. }
    unfold annotated in Ha. rewrite Hel in Ha. simpl in Ha.
    unfold truthy in Ha. unfold or_else.
    destruct (contentId el) as [s|]; [|reflexivity].
    apply negb_false_iff in Ha. now rewrite Ha.
  - apply substring_length.
  - cbn. eauto 10.
Qed.

End HitTestMore.

(* ================================================================== *)
(** ** Further properties: coordinates, grid and period *)
(* ================================================================== *)

Section NumericMore.
Import Js GazeRecorder RecorderSpec.

Lemma Qle_bool_false (p q : Q) : Qle_bool p q = false -> (q < p)%Q.
Proof.
  intros H. apply Qnot_le_lt. intros Hle. apply Qle_bool_iff in Hle. congruence.
Qed.

Lemma clamp_range (n lo hi : Q) :
  (lo <= hi)%Q ->
  exists r, clamp (Fin n) (Fin lo) (Fin hi) = Fin r
            /\ (lo <= r <= hi)%Q
            /\ ((lo <= n <= hi)%Q -> (r == n)%Q).
Proof.
  intros Hb. unfold clamp, Math_min, Math_max.
  destruct (Qle_bool hi n) eqn:E1.
  - apply Qle_bool_iff in E1.
    destruct (Qle_bool lo hi) eqn:E2.
    + exists hi. repeat split; intros; lra.
    + apply Qle_bool_false in E2. lra.
  - apply Qle_bool_false in E1.
    destruct (Qle_bool lo n) eqn:E2.
    + apply Qle_bool_iff in E2. exists n. repeat split; intros; lra.
    + apply Qle_bool_false in E2. exists lo. repeat split; intros; lra.
Qed.

(** X6. clamp keeps a finite number between finite bounds lo <= hi and
    returns the number itself when it already lies between them; NaN is
    passed through. *)
Theorem clamp_between (n lo hi : Q) :
  (lo <= hi)%Q ->
  (exists r, clamp (Fin n) (Fin lo) (Fin hi) = Fin r
             /\ (lo <= r <= hi)%Q
             /\ ((lo <= n <= hi)%Q -> (r == n)%Q))
  /\ clamp NaN (Fin lo) (Fin hi) = NaN.
Proof.
  intros Hb. split; [now apply clamp_range | reflexivity].
Qed.

Lemma clamp_between_witness :
  exists r, clamp (Fin (7 # 1)) (Fin 0) (Fin (5 # 1)) = Fin r
            /\ (0 <= r <= 5 # 1)%Q
            /\ ((0 <= 7 # 1 <= 5 # 1)%Q -> (r == 7 # 1)%Q).
Proof.
  apply (proj1 (clamp_between (7 # 1) 0 (5 # 1) ltac:(discriminate))).
Defined.

Lemma rounded_clamp (n : Q) (w : Z) :
  0 <= w ->
  exists z, rounded_value (clamp (Fin n) (num 0) (num w)) = VInt z /\ 0 <= z <= w.
Proof.
  intros Hw.
  destruct (clamp_range n (inject_Z 0) (inject_Z w)) as (r & E & [Hlo Hhi] & _).
  { now rewrite <- Zle_Qle. }
  unfold num. rewrite E. unfold rounded_value. simpl Math_round. cbv iota beta.
  rewrite Qfloor_Z. exists (round r). split; [reflexivity|].
  pose proof (round_mono _ _ Hlo) as H1. pose proof (round_mono _ _ Hhi) as H2.
  rewrite round_inject_Z in H1, H2. lia.
Qed.

(** X7. Whatever the estimator delivered, the pixel coordinates of a row
    built from the slot lie in the window: between 0 and innerWidth, and
    between 0 and innerHeight. *)
Theorem sample_pixels_inside_window p w uuid evs e g :
  let c := run evs (mount p w uuid) in
  lastGaze (refs c) = Some g ->
  0 <= innerWidth (win e) ->
  0 <= innerHeight (win e) ->
  exists zx zy,
    get (sampleRow e (refs c) g) "gaze_x_px" = VInt zx
    /\ get (sampleRow e (refs c) g) "gaze_y_px" = VInt zy
    /\ 0 <= zx <= innerWidth (win e)
    /\ 0 <= zy <= innerHeight (win e).
Proof.
  intros c Hg Hw Hh.
  assert (Hinv : slotFinite (refs c)) by (apply run_slotFinite; exact I).
  unfold slotFinite in Hinv. rewrite Hg in Hinv. destruct Hinv as [Hx Hy].
  destruct (gx g) as [qx| | |] eqn:Egx; try discriminate Hx.
  destruct (gy g) as [qy| | |] eqn:Egy; try discriminate Hy.
  destruct (rounded_clamp qx _ Hw) as (zx & Ex & Bx).
  destruct (rounded_clamp qy _ Hh) as (zy & Ey & By).
  exists zx, zy.
  destruct (sampleRow_gaze_px e (refs c) g) as [-> ->].
  rewrite Egx, Egy, Ex, Ey. auto.
Qed.

Lemma sample_pixels_inside_window_witness :
  exists zx zy,
    get (sampleRow (mkTickEnv (mkWindow 100 50 0) 0 (fun _ _ => blankContext) "q")
                   (refs (run [EGaze (Some (Fin (500 # 1), Fin (-3 # 1))) None 0]
                              sampleComponent))
                   (mkGaze (Fin (500 # 1)) (Fin (-3 # 1)) 0))
        "gaze_x_px" = VInt zx
    /\ get (sampleRow (mkTickEnv (mkWindow 100 50 0) 0 (fun _ _ => blankContext) "q")
                      (refs (run [EGaze (Some (Fin (500 # 1), Fin (-3 # 1))) None 0]
                                 sampleComponent))
                      (mkGaze (Fin (500 # 1)) (Fin (-3 # 1)) 0))
           "gaze_y_px" = VInt zy
    /\ 0 <= zx <= 100
    /\ 0 <= zy <= 50.
Proof.
  apply (sample_pixels_inside_window (mkProps (num 5) 6) (mkWindow 1000 800 0) "session"
           [EGaze (Some (Fin (500 # 1), Fin (-3 # 1))) None 0]
           (mkTickEnv (mkWindow 100 50 0) 0 (fun _ _ => blankContext) "q")
           (mkGaze (Fin (500 # 1)) (Fin (-3 # 1)) 0)
           eq_refl); simpl; lia.
Defined.

(** Math.round of a fraction, by integer division. *)
Lemma round_fraction (a : Z) (b : positive) (w : Z) :
  round ((a # b) * inject_Z w) = (2 * (a * w) + Z.pos b) / (2 * Z.pos b).
Proof.
  unfold round, Qfloor, Qplus, Qmult, inject_Z. simpl Qnum. simpl Qden.
  rewrite Pos.mul_1_r. f_equal; lia.
Qed.

Lemma grid_coordinates (w : Z) :
  2 <= w ->
  let a := round ((1 # 10) * inject_Z w) in
  let b := round ((1 # 2) * inject_Z w) in
  let c := round ((9 # 10) * inject_Z w) in
  0 <= a /\ a < b /\ b < c /\ c <= w.
Proof.
  intros Hw a b c. unfold a, b, c. rewrite !round_fraction.
  repeat split; Z.to_euclidean_division_equations; lia.
Qed.

Lemma grid_coordinates_inside (w : Z) :
  0 <= w ->
  let a := round ((1 # 10) * inject_Z w) in
  let b := round ((1 # 2) * inject_Z w) in
  let c := round ((9 # 10) * inject_Z w) in
  0 <= a <= w /\ 0 <= b <= w /\ 0 <= c <= w.
Proof.
  intros Hw a b c. unfold a, b, c. rewrite !round_fraction.
  repeat split; Z.to_euclidean_division_equations; lia.
Qed.

(** X8. In a window of non-negative size all nine calibration points lie
    inside the window, and in a window at least 2 pixels wide and high they
    are pairwise distinct. *)
Theorem grid_points_inside_and_distinct (w h : Z) :
  (0 <= w -> 0 <= h ->
   forall x y, In (x, y) (make9PointGrid w h) -> 0 <= x <= w /\ 0 <= y <= h)
  /\ (2 <= w -> 2 <= h -> NoDup (make9PointGrid w h)).
Proof.
  change (make9PointGrid w h) with (rowMajorGrid w h). unfold rowMajorGrid.
  cbv zeta. split.
  - intros Hw Hh.
    destruct (grid_coordinates_inside w Hw) as (Ha & Hb & Hc).
    destruct (grid_coordinates_inside h Hh) as (Hd & He & Hf).
    intros x y H. simpl in H.
    repeat (destruct H as [H|H]; [injection H as <- <-; lia|]). destruct H.
  - intros Hw Hh.
    destruct (grid_coordinates w Hw) as (Ha & Hab & Hbc & Hc).
    destruct (grid_coordinates h Hh) as (Hd & Hde & Hef & Hf).
    set (a := round ((1 # 10) * inject_Z w)) in *.
    set (b := round ((1 # 2) * inject_Z w)) in *.
    set (c := round ((9 # 10) * inject_Z w)) in *.
    set (d := round ((1 # 10) * inject_Z h)) in *.
    set (e := round ((1 # 2) * inject_Z h)) in *.
    set (f := round ((9 # 10) * inject_Z h)) in *.
    repeat (constructor;
            [ simpl; intros H;
              repeat (destruct H as [H|H]; [injection H; lia|]); exact H | ]).
    constructor.
Qed.

Lemma grid_points_inside_and_distinct_witness :
  NoDup (make9PointGrid 2 2)
  /\ (forall x y, In (x, y) (make9PointGrid 1 0) -> 0 <= x <= 1 /\ 0 <= y <= 0).
Proof.
  split.
  - apply (proj2 (grid_points_inside_and_distinct 2 2)); lia.
  - apply (proj1 (grid_points_inside_and_distinct 1 0)); lia.
Defined.





(** X10. The relative timestamp of a row is an integer; within a session
    (same start) a tick at a later clock value never gets a smaller
    timestamp than an earlier one, and a tick not before the session start
    gets a non-negative one. *)
Theorem sample_timestamps_monotone e1 e2 r1 r2 g1 g2 :
  recordingStartTs r1 = recordingStartTs r2 ->
  (now e1 <= now e2)%Q ->
  exists t1 t2,
    get (sampleRow e1 r1 g1) "ts_ms" = VInt t1
    /\ get (sampleRow e2 r2 g2) "ts_ms" = VInt t2
    /\ t1 <= t2
    /\ ((or_zero (recordingStartTs r1) <= now e1)%Q -> 0 <= t1).
Proof.
  intros Hs Hnow.
  exists (round (now e1 - or_zero (recordingStartTs r1))),
         (round (now e2 - or_zero (recordingStartTs r2))).
  split; [reflexivity|]. split; [reflexivity|]. split.
  - apply round_mono. rewrite Hs. lra.
  - intros H0. change 0 with (round 0). apply round_mono. lra.
Qed.

Lemma sample_timestamps_monotone_witness :
  exists t1 t2,
    get (sampleRow (mkTickEnv (mkWindow 100 50 0) (200 # 1) (fun _ _ => blankContext) "q")
                   (refs recordingComponent) (mkGaze (Fin 1) (Fin 1) 0)) "ts_ms" = VInt t1
    /\ get (sampleRow (mkTickEnv (mkWindow 100 50 0) (400 # 1) (fun _ _ => blankContext) "q")
                      (refs recordingComponent) (mkGaze (Fin 1) (Fin 1) 0)) "ts_ms" = VInt t2
    /\ t1 <= t2
    /\ ((or_zero (recordingStartTs (refs recordingComponent)) <= 200 # 1)%Q -> 0 <= t1).
Proof.
  apply (sample_timestamps_monotone
           (mkTickEnv (mkWindow 100 50 0) (200 # 1) (fun _ _ => blankContext) "q")
           (mkTickEnv (mkWindow 100 50 0) (400 # 1) (fun _ _ => blankContext) "q")
           (refs recordingComponent) (refs recordingComponent)
           (mkGaze (Fin 1) (Fin 1) 0) (mkGaze (Fin 1) (Fin 1) 0) eq_refl).
  discriminate.
Defined.

End NumericMore.

(* ================================================================== *)
(** ** Further properties: the component over its event traces *)
(* ================================================================== *)

Section ComponentMore.
Import Js CsvSpec GazeRecorder RecorderSpec GazeExports MoreSpec.

Lemma step_after_cleanup ev c :
  stopped (refs c) = true ->
  stopped (refs (step ev c)) = true
  /\ lastGaze (refs (step ev c)) = lastGaze (refs c).
Proof.
  intros Hs. destruct ev; simpl; auto.
  - unfold gazeListener. rewrite Hs. auto.
  - destruct (recording (state c)); simpl; [|auto].
    rewrite samplerTick_lastGaze. split; [|reflexivity].
    unfold samplerTick. destruct (lastGaze (refs c)); exact Hs.
  - destruct (negb (ready (state c)) || recording (state c)); auto.
  - unfold clickDot. destruct (currentDot c) as [[x y]|]; auto.
  - destruct (negb (ready (state c)) || calibrating (state c) || recording (state c));
      auto.
  - destruct (negb (recording (state c))); auto.
  - unfold audioTick. destruct (audioRecordingRef (refs c)); auto.
Qed.

(** X11. Once the cleanup of the WebGazer effect has run, no later event,
    gaze updates included, changes the latest-gaze slot. *)
Theorem slot_frozen_after_cleanup c evs :
  lastGaze (refs (run evs (step ECleanup c))) = lastGaze (refs c).
Proof.
  assert (H : forall evs c', stopped (refs c') = true ->
                             lastGaze (refs (run evs c')) = lastGaze (refs c')).
  { clear. intros evs. induction evs as [|ev evs IH]; intros c' Hs; [reflexivity|].
    destruct (step_after_cleanup ev c' Hs) as [Hs' Hg].
    change (run (ev :: evs) c') with (run evs (step ev c')).
    now rewrite IH, Hg. }
  now rewrite H.
Qed.

Lemma Forall_snoc {A} (P : A -> Prop) (l : list A) (x : A) :
  Forall P l -> P x -> Forall P (l ++ [x]).
Proof. intros Hl Hx. apply Forall_app. split; [exact Hl | now constructor]. Qed.

Lemma step_bufferOfSession ev c :
  bufferOfSession c -> bufferOfSession (step ev c).
Proof.
  unfold bufferOfSession. intros H. destruct ev; simpl; try exact H.
  - unfold gazeListener. destruct (stopped (refs c)); [exact H|].
    destruct data as [[dx dy]|]; [|exact H].
    destruct (negb (isFinite dx) || negb (isFinite dy)); exact H.
  - destruct (recording (state c)); [|exact H]. simpl.
    unfold samplerTick. destruct (lastGaze (refs c)) as [g|]; [|exact H].
    simpl. apply Forall_snoc; [exact H|]. split; reflexivity.
  - destruct (negb (ready (state c)) || recording (state c)); exact H.
  - unfold clickDot. destruct (currentDot c) as [[x y]|]; exact H.
  - destruct (negb (ready (state c)) || calibrating (state c) || recording (state c));
      [exact H | constructor].
  - destruct (negb (recording (state c))); exact H.
  - unfold audioTick. destruct (audioRecordingRef (refs c)); exact H.
Qed.

Lemma run_bufferOfSession evs c :
  bufferOfSession c -> bufferOfSession (run evs c).
Proof.
  revert c. induction evs as [|ev evs IH]; intros c H; [exact H|].
  apply IH. now apply step_bufferOfSession.
Qed.

(** X12. In every state reached from the first render, every row of the
    sample buffer has the twenty keys of the row literal, in that order, and
    carries the id of the current session: rows of an earlier session never
    survive a new start. *)
Theorem buffer_rows_belong_to_session p w uuid evs :
  bufferOfSession (run evs (mount p w uuid)).
Proof. apply run_bufferOfSession. constructor. Qed.

Lemma sampleKeys_NoDup : NoDup sampleKeys.
Proof.
  unfold sampleKeys.
  repeat (constructor;
          [ simpl; intros H;
            repeat (destruct H as [H|H]; [discriminate H|]); exact H | ]).
  constructor.
Qed.

(** X13. The gaze export after any run of the component: nothing is
    downloaded while the buffer is empty; otherwise the file is named after
    the current session, its header is the twenty keys of the row literal,
    which is also the union of the keys of all rows, and there is one data
    line per buffered row. *)
Theorem gaze_export_header p w uuid evs :
  let c := run evs (mount p w uuid) in
  match samples (refs c) with
  | [] => download c = None
  | rows =>
      download c
      = Some (("gaze_session_" ++ sessionId (refs c) ++ ".csv")%string,
              table GazeRecorder.csvEscape sampleKeys rows)
      /\ union_of_keys rows = sampleKeys
      /\ List.length (GazeRecorder.csvLines rows) = S (List.length rows)
  end.
Proof.
  intros c. pose proof (buffer_rows_keys := run_bufferOfSession evs (mount p w uuid)).
  fold c in buffer_rows_keys. unfold bufferOfSession in buffer_rows_keys.
  unfold download.
  destruct (samples (refs c)) as [|r rows]; [reflexivity|].
  assert (H : Forall (fun row => Object_keys row = sampleKeys
                                 /\ get row "session_id" = VStr (sessionId (refs c)))
                     (r :: rows)).
  { apply buffer_rows_keys. constructor. }
  inversion H as [|? ? [Hr _] Hrows]; subst.
  split; [|split].
  - unfold GazeRecorder.downloadCsv, GazeRecorder.csvLines, table.
    cbn [GazeRecorder.csvHeader]. now rewrite Hr.
  - rewrite <- Hr. apply union_of_homogeneous.
    + rewrite Hr. apply sampleKeys_NoDup.
    + intros r' Hr'. rewrite Forall_forall in Hrows.
      destruct (Hrows r' Hr') as [-> _]. rewrite Hr. apply incl_refl.
  - unfold GazeRecorder.csvLines. cbn [List.length]. now rewrite length_map.
Qed.

Lemma step_not_recording ev c :
  recording (state c) = false ->
  isStartRecording ev = false ->
  recording (state (step ev c)) = false
  /\ samples (refs (step ev c)) = samples (refs c).
Proof.
  intros Hr Hev. destruct ev; try discriminate Hev; simpl; rewrite ?Hr; simpl; auto.
  - split; [auto|]. unfold gazeListener. destruct (stopped (refs c)); [reflexivity|].
    destruct data as [[dx dy]|]; [|reflexivity].
    destruct (negb (isFinite dx) || negb (isFinite dy)); reflexivity.
  - destruct (negb (ready (state c)) || false); simpl; auto.
  - unfold clickDot. destruct (currentDot c) as [[x y]|]; [|auto].
    unfold onCalibDotClick. simpl.
    repeat match goal with
           | |- context [if ?b then _ else _] => destruct b
           end; simpl; auto.
  - split; [auto|]. unfold audioTick. destruct (audioRecordingRef (refs c)); reflexivity.
Qed.

(** X14. While the recording flag is unset nothing is appended to the
    sample buffer: a trace without a start of recording, ticks included,
    leaves the buffer as it was. *)
Theorem no_rows_while_not_recording evs c :
  recording (state c) = false ->
  existsb isStartRecording evs = false ->
  samples (refs (run evs c)) = samples (refs c)
  /\ recording (state (run evs c)) = false.
Proof.
  revert c. induction evs as [|ev evs IH]; intros c Hr Hevs; [auto|].
  simpl in Hevs. apply orb_false_elim in Hevs. destruct Hevs as [Hev Hevs].
  destruct (step_not_recording ev c Hr Hev) as [Hr' Hs].
  change (run (ev :: evs) c) with (run evs (step ev c)).
  destruct (IH (step ev c) Hr' Hevs) as [H1 H2]. split; [congruence | exact H2].
Qed.

Lemma no_rows_while_not_recording_witness :
  samples (refs (run (EStopRecording :: sampleSession)
                     (run sampleSession recordingComponent)))
  = samples (refs (run sampleSession recordingComponent)).
Proof.
  change (run (EStopRecording :: sampleSession) (run sampleSession recordingComponent))
    with (run sampleSession (step EStopRecording (run sampleSession recordingComponent))).
  transitivity
    (samples (refs (step EStopRecording (run sampleSession recordingComponent))));
    [|reflexivity].
  apply (no_rows_while_not_recording sampleSession
           (step EStopRecording (run sampleSession recordingComponent))
           eq_refl eq_refl).
Defined.

Lemma step_flagsOk ev c : flagsOk (state c) = true -> flagsOk (state (step ev c)) = true.
Proof.
  unfold flagsOk. intros H.
  destruct (ready (state c)) eqn:Er, (recording (state c)) eqn:Erec,
           (calibrating (state c)) eqn:Ecal; try discriminate H; clear H;
    destruct ev; simpl; rewrite ?Er, ?Erec, ?Ecal; simpl;
    rewrite ?Er, ?Erec, ?Ecal; try reflexivity;
    unfold clickDot, currentDot; rewrite ?Ecal; simpl;
    rewrite ?Er, ?Erec, ?Ecal; try reflexivity;
    (destruct (calibIdx (state c) <? Z.of_nat (List.length (calibPts c))); simpl;
     rewrite ?Er, ?Erec, ?Ecal; try reflexivity;
     destruct (nth_error (calibPts c) (Z.to_nat (calibIdx (state c)))) as [[x y]|];
     simpl; rewrite ?Er, ?Erec, ?Ecal; try reflexivity;
     repeat match goal with
            | |- context [if ?b then _ else _] => destruct b
            end; simpl; rewrite ?Er, ?Erec, ?Ecal; reflexivity).
Qed.

(** X15. In every state reached from the first render, recording implies
    that the estimator is ready, calibrating implies the same, and the
    component is never recording and calibrating at once. *)
Theorem recording_and_calibration_exclude p w uuid evs :
  let s := state (run evs (mount p w uuid)) in
  (recording s = true -> ready s = true)
  /\ (calibrating s = true -> ready s = true)
  /\ recording s && calibrating s = false.
Proof.
  intros s.
  assert (H : flagsOk s = true).
  { unfold s. generalize (mount p w uuid) (eq_refl : flagsOk (state (mount p w uuid)) = true).
    induction evs as [|ev evs IH]; intros c Hc; [exact Hc|].
    apply (IH (step ev c)). now apply step_flagsOk. }
  unfold flagsOk in H.
  destruct (ready s), (recording s), (calibrating s); simpl in *; auto; discriminate.
Qed.

Lemma recording_and_calibration_exclude_witness :
  ready (state (run [EReady; EStartRecording "s2" 0] sampleComponent)) = true.
Proof.
  apply (proj1 (recording_and_calibration_exclude
                  (mkProps (num 5) 6) (mkWindow 1000 800 0) "session"
                  [EReady; EStartRecording "s2" 0])).
  reflexivity.
Defined.

End ComponentMore.

(* ================================================================== *)
(** ** Further properties: calibration in general *)
(* ================================================================== *)

Section CalibrationMore.
Import Js GazeRecorder RecorderSpec MoreSpec.

Lemma clickDot_indexInGrid c c' :
  indexInGrid c -> clickDot c = Some c' -> indexInGrid c'.
Proof.
  unfold indexInGrid, clickDot, currentDot. intros (Hne & Hidx & Hcal) H.
  destruct (calibrating (state c)) eqn:Ec; [|discriminate H].
  destruct (calibIdx (state c) <? Z.of_nat (List.length (calibPts c))) eqn:El;
    [|discriminate H].
  apply Z.ltb_lt in El. simpl in H.
  destruct (nth_error (calibPts c) (Z.to_nat (calibIdx (state c)))) as [[x y]|];
    [|discriminate H].
  injection H as <-. unfold onCalibDotClick. cbn [calibPts state].
  destruct (clicksPerCalibrationPoint (props c) <=? calibClicks (state c) + 1).
  - destruct (Z.of_nat (List.length (calibPts c)) <=? calibIdx (state c) + 1) eqn:E.
    + apply Z.leb_le in E. simpl. repeat split; first [assumption | lia | discriminate].
    + apply Z.leb_gt in E. simpl. repeat split; try assumption; try lia.
  - simpl. repeat split; try assumption; try lia.
Qed.

Lemma step_indexInGrid ev c : indexInGrid c -> indexInGrid (step ev c).
Proof.
  intros H. destruct ev; simpl; try exact H.
  - destruct (recording (state c)); exact H.
  - destruct (negb (ready (state c)) || recording (state c)); [exact H|].
    destruct H as (Hne & Hidx & Hcal). unfold indexInGrid. simpl.
    repeat split; try assumption; try lia.
    + intros _. destruct (calibPts c); [congruence | simpl; lia].
  - destruct (clickDot c) as [c'|] eqn:E; [|exact H].
    now apply (clickDot_indexInGrid c).
  - destruct (negb (ready (state c)) || calibrating (state c) || recording (state c));
      exact H.
  - destruct (negb (recording (state c))); exact H.
Qed.

Lemma run_indexInGrid evs c : indexInGrid c -> indexInGrid (run evs c).
Proof.
  revert c. induction evs as [|ev evs IH]; intros c H; [exact H|].
  apply IH. now apply step_indexInGrid.
Qed.

Lemma mount_indexInGrid p w uuid : indexInGrid (mount p w uuid).
Proof.
  unfold indexInGrid. simpl. repeat split; try lia; discriminate.
Qed.

(** X16. In every state reached from the first render the point index
    lies between 0 and 9, and whenever the calibrating flag is set a dot of
    the grid is on screen to be clicked: the overlay is never shown without
    a target, whatever the click threshold. *)
Theorem calibrating_shows_a_dot p w uuid evs :
  let c := run evs (mount p w uuid) in
  0 <= calibIdx (state c) <= 9
  /\ (calibrating (state c) = true ->
      exists x y, currentDot c = Some (x, y)
                  /\ In (x, y) (make9PointGrid (innerWidth w) (innerHeight w))).
Proof.
  intros c.
  destruct (run_indexInGrid evs _ (mount_indexInGrid p w uuid)) as (Hne & Hidx & Hcal).
  fold c in Hne, Hidx, Hcal.
  assert (Hpts : calibPts c = make9PointGrid (innerWidth w) (innerHeight w)).
  { unfold c. now rewrite run_calibPts. }
  rewrite Hpts, make9PointGrid_length in Hidx, Hcal.
  split; [exact Hidx|]. intros Hc. specialize (Hcal Hc).
  unfold currentDot. rewrite Hc, Hpts, make9PointGrid_length.
  assert (E : (calibIdx (state c) <? Z.of_nat 9) = true) by (apply Z.ltb_lt; lia).
  rewrite E. simpl andb.
  destruct (nth_error (make9PointGrid (innerWidth w) (innerHeight w))
                      (Z.to_nat (calibIdx (state c)))) as [[x y]|] eqn:En.
  - exists x, y. split; [reflexivity|]. now apply nth_error_In in En.
  - apply nth_error_None in En. rewrite make9PointGrid_length in En. lia.
Qed.

Lemma calibrating_shows_a_dot_witness :
  exists x y,
    currentDot (run [EReady; EStartCalibration; EClickDot] sampleComponent) = Some (x, y)
    /\ In (x, y) (make9PointGrid 1000 800).
Proof.
  apply (proj2 (calibrating_shows_a_dot (mkProps (num 5) 6) (mkWindow 1000 800 0)
                  "session" [EReady; EStartCalibration; EClickDot])).
  reflexivity.
Defined.

(** X17. For any positive click threshold T and any non-empty grid of L
    points, calibration started in any state is still running after every
    number of clicks below T * L and is done after exactly T * L clicks,
    with the index at L and no dot left to click. *)
Theorem calibration_takes_T_times_L_clicks (c : Component) :
  let T := clicksPerCalibrationPoint (props c) in
  let L := List.length (calibPts c) in
  0 < T ->
  calibPts c <> [] ->
  (forall n, Z.of_nat n < T * Z.of_nat L ->
             exists c', clickDots n (startCalibration c) = Some c'
                        /\ calibrating (state c') = true)
  /\ (exists c', clickDots (Z.to_nat T * L) (startCalibration c) = Some c'
                 /\ calibrating (state c') = false
                 /\ status (state c') = "calibration done"%string
                 /\ calibIdx (state c') = Z.of_nat L
                 /\ calibClicks (state c') = 0
                 /\ clickDot c' = None).
Proof.
  intros T L HT Hne. split.
  - intros n Hn.
    destruct (calibration_run c n HT Hne ltac:(fold T L; lia)) as (c' & Hrun & Inv).
    exists c'. split; [exact Hrun|].
    rewrite (ca_calibrating _ _ _ _ Inv). fold T L. now apply Z.ltb_lt.
  - assert (Hn : Z.of_nat (Z.to_nat T * L) = T * Z.of_nat L).
    { rewrite Nat2Z.inj_mul, Z2Nat.id by lia. reflexivity. }
    destruct (calibration_run c (Z.to_nat T * L) HT Hne ltac:(fold T L; lia))
      as (c' & Hrun & Inv).
    destruct Inv as [_ _ _ Hi Hc Hcal Hst _]. fold T L in Hi, Hc, Hcal, Hst.
    rewrite Hn in Hi, Hc, Hcal, Hst. rewrite Z.ltb_irrefl in Hcal, Hst.
    exists c'. repeat split; try assumption.
    + rewrite Hi, Z.mul_comm. apply Z.div_mul. lia.
    + rewrite Hc, Z.mul_comm. apply Z.mod_mul. lia.
    + now apply no_click_when_done.
Qed.

Lemma calibration_takes_T_times_L_clicks_witness :
  exists c', clickDots 54 (startCalibration sampleComponent) = Some c'
             /\ calibrating (state c') = false
             /\ status (state c') = "calibration done"%string
             /\ calibIdx (state c') = 9
             /\ calibClicks (state c') = 0
             /\ clickDot c' = None.
Proof.
  apply (proj2 (calibration_takes_T_times_L_clicks sampleComponent
                  ltac:(reflexivity) ltac:(discriminate))).
Defined.

Lemma one_click_per_point (c : Component) (n : nat) :
  clicksPerCalibrationPoint (props c) <= 1 ->
  calibPts c <> [] ->
  (n <= List.length (calibPts c))%nat ->
  exists c', clickDots n (startCalibration c) = Some c'
             /\ props c' = props c
             /\ calibPts c' = calibPts c
             /\ calibIdx (state c') = Z.of_nat n
             /\ calibClicks (state c') = 0
             /\ calibrating (state c') = (n <? List.length (calibPts c))%nat.
Proof.
  intros HT Hne. induction n as [|n IH]; intros Hn.
  - exists (startCalibration c). repeat split.
    simpl. destruct (calibPts c); [congruence | reflexivity].
  - destruct IH as (c1 & Hrun & Hp & Hg & Hi & Hc & Hcal); [lia|].
    rewrite clickDots_snoc, Hrun.
    assert (El : (n <? List.length (calibPts c))%nat = true) by (apply Nat.ltb_lt; lia).
    rewrite El in Hcal.
    unfold clickDot, currentDot. rewrite Hcal, Hg, Hi.
    assert (E : (Z.of_nat n <? Z.of_nat (List.length (calibPts c))) = true)
      by (apply Z.ltb_lt; lia).
    rewrite E. simpl andb. rewrite Nat2Z.id.
    destruct (nth_error (calibPts c) n) as [[x y]|] eqn:En.
    2:{ apply nth_error_None in En. lia. }
    eexists. split; [reflexivity|].
    unfold onCalibDotClick. rewrite Hp, Hg, Hi, Hc.
    assert (Ethr : (clicksPerCalibrationPoint (props c) <=? 0 + 1) = true)
      by (apply Z.leb_le; lia).
    rewrite Ethr.
    destruct (Z.of_nat (List.length (calibPts c)) <=? Z.of_nat n + 1) eqn:Elast.
    + apply Z.leb_le in Elast.
      assert (En' : (S n <? List.length (calibPts c))%nat = false)
        by (apply Nat.ltb_ge; lia).
      cbn [props calibPts state set_calibration calibIdx calibClicks calibrating].
      rewrite En'. repeat split. lia.
    + apply Z.leb_gt in Elast.
      assert (En' : (S n <? List.length (calibPts c))%nat = true)
        by (apply Nat.ltb_lt; lia).
      cbn [props calibPts state set_calibration calibIdx calibClicks calibrating].
      rewrite En'. repeat split; [lia | exact Hcal].
Qed.

(** X18. A click threshold of 1, 0 or a negative number acts as one click
    per point: every click advances the index, the click count stays 0, and
    calibration of a grid of L points is done after exactly L clicks. *)
Theorem threshold_at_most_one_needs_L_clicks (c : Component) :
  clicksPerCalibrationPoint (props c) <= 1 ->
  calibPts c <> [] ->
  (forall n, (n <= List.length (calibPts c))%nat ->
             exists c', clickDots n (startCalibration c) = Some c'
                        /\ calibIdx (state c') = Z.of_nat n
                        /\ calibClicks (state c') = 0
                        /\ calibrating (state c') = (n <? List.length (calibPts c))%nat)
  /\ clickDots (S (List.length (calibPts c))) (startCalibration c) = None.
Proof.
  intros HT Hne. split.
  - intros n Hn.
    destruct (one_click_per_point c n HT Hne Hn) as (c' & H1 & _ & _ & H2 & H3 & H4).
    eauto.
  - destruct (one_click_per_point c _ HT Hne (Nat.le_refl _))
      as (c' & H1 & _ & _ & _ & _ & H4).
    rewrite clickDots_snoc, H1. apply no_click_when_done.
    now rewrite H4, Nat.ltb_irrefl.
Qed.

Lemma threshold_at_most_one_needs_L_clicks_witness :
  clickDots 10 (startCalibration (mount (mkProps (num 5) 0) (mkWindow 1000 800 0) "s"))
  = None.
Proof.
  apply (proj2 (threshold_at_most_one_needs_L_clicks
                  (mount (mkProps (num 5) 0) (mkWindow 1000 800 0) "s")
                  ltac:(discriminate) ltac:(discriminate))).
Defined.

End CalibrationMore.

(* ================================================================== *)
(** ** Further properties: the audio hook over its events *)
(* ================================================================== *)

Section AudioMore.
Import Js JsString AudioRecorder AudioSpec AudioMoreSpec.

Lemma start_idle_success_state env id meta h :
  isSupported env = true ->
  isRecording h = false ->
  caught env h = None ->
  exists s,
    fst (startRecording env id meta h)
    = mkHook true (recordings h) EmptyString (Some (List.length (recorders h))) (Some s)
             [] meta (Some (recordingIdOf id env)) (Some (now env))
             (recorders h
                ++ [mkRecorder (constructedMime env) (recordingIdOf id env) (now env) true]).
Proof.
  unfold startRecording, caught, constructedMime. intros -> -> H.
  cbn [negb isRecording streamRef].
  destruct (streamRef h) as [s|]; [|destruct (getUserMedia env) as [e0|s]];
    try discriminate H;
    (destruct (newMediaRecorder env) as [e1|mime]; [discriminate H|];
     destruct (recorderStart env) as [e2|]; [discriminate H|];
     exists s; reflexivity).
Qed.




Lemma step_unsupported ev h :
  startsUnsupported ev = true ->
  isRecording h = false /\ recorders h = [] /\ recordings h = []
  /\ mediaRecorderRef h = None /\ streamRef h = None ->
  isRecording (step ev h) = false /\ recorders (step ev h) = []
  /\ recordings (step ev h) = [] /\ mediaRecorderRef (step ev h) = None
  /\ streamRef (step ev h) = None.
Proof.
  intros Hev (H1 & H2 & H3 & H4 & H5). destruct ev; simpl in *.
  - unfold startRecording. rewrite Hev. simpl. auto.
  - unfold stopRecording. rewrite H4. auto.
  - rewrite H2. destruct k; simpl; auto.
  - rewrite H2. destruct k; simpl; auto.
  - rewrite H2. destruct k; simpl; auto.
  - auto.
  - auto.
Qed.

(** X20. In a browser without audio capture the hook never records: along
    any trace whose starts all find isSupported false, the recording flag
    stays unset, no MediaRecorder and no stream is ever created, the list of
    recordings stays empty, and every start returns null with the
    not-supported message. *)
Theorem unsupported_browser_never_records evs :
  forallb startsUnsupported evs = true ->
  let h := run evs initial in
  (isRecording h = false /\ recorders h = [] /\ recordings h = []
   /\ mediaRecorderRef h = None /\ streamRef h = None)
  /\ (forall env id meta,
         isSupported env = false ->
         snd (startRecording env id meta h) = None
         /\ error (fst (startRecording env id meta h))
            = "Audio recording is not supported in this browser."%string).
Proof.
  intros Hevs h. split.
  - unfold h. clear h.
    assert (H0 : isRecording initial = false /\ recorders initial = []
                 /\ recordings initial = [] /\ mediaRecorderRef initial = None
                 /\ streamRef initial = None) by (repeat split).
    revert Hevs H0. generalize initial.
    induction evs as [|ev evs IH]; intros h0 Hevs H0; [exact H0|].
    simpl in Hevs. apply andb_true_iff in Hevs. destruct Hevs as [Hev Hevs].
    apply (IH (step ev h0) Hevs). now apply step_unsupported.
  - intros env id meta Hs. unfold startRecording. rewrite Hs. split; reflexivity.
Qed.

Lemma unsupported_browser_never_records_witness :
  let h := run [EStart (mkStartEnv false "u" (inr 0%nat) (inr "audio/webm"%string) 0 None)
                       None None; EStop; EOnError 0 None] initial in
  isRecording h = false /\ recorders h = [] /\ recordings h = []
  /\ mediaRecorderRef h = None /\ streamRef h = None.
Proof.
  apply (proj1 (unsupported_browser_never_records
                  [EStart (mkStartEnv false "u" (inr 0%nat) (inr "audio/webm"%string) 0 None)
                          None None; EStop; EOnError 0 None] eq_refl)).
Defined.

Lemma step_keeps_stream ev h s :
  streamRef h = Some s -> streamRef (step ev h) = Some s.
Proof.
  intros Hs. destruct ev; simpl.
  - unfold startRecording.
    destruct (isSupported env); [|exact Hs].
    destruct (isRecording h); [exact Hs|]. cbn [negb streamRef]. rewrite Hs.
    destruct (newMediaRecorder env) as [e|mime]; [reflexivity|].
    destruct (recorderStart env); reflexivity.
  - unfold stopRecording. destruct (mediaRecorderRef h); exact Hs.
  - destruct (nth_error (recorders h) k); exact Hs.
  - destruct (nth_error (recorders h) k); exact Hs.
  - destruct (nth_error (recorders h) k); [|exact Hs].
    unfold ondataavailable. destruct data as [d|]; [|exact Hs].
    destruct (0 <? String.length d)%nat; exact Hs.
  - exact Hs.
  - exact Hs.
Qed.

(** X21. The audio input is acquired once, for starts that run one after
    the other (a start is one step here: no second start is issued while
    the first still awaits the stream).  Once streamRef holds a stream it
    never changes again along any trace, and a start that finds the stream
    cached does not consult getUserMedia: the outcome of startRecording is
    the same whatever getUserMedia would answer, a rejection included. *)
Theorem stream_acquired_once h s :
  streamRef h = Some s ->
  (forall evs, streamRef (run evs h) = Some s)
  /\ (forall env id meta media,
         startRecording (withUserMedia env media) id meta h
         = startRecording env id meta h).
Proof.
  intros Hs. split.
  - intros evs. revert h Hs. induction evs as [|ev evs IH]; intros h Hs; [exact Hs|].
    apply (IH (step ev h)). now apply step_keeps_stream.
  - intros env id meta media. unfold startRecording, withUserMedia, recordingIdOf.
    cbn [isSupported randomUUID getUserMedia newMediaRecorder now recorderStart
         streamRef].
    rewrite Hs. reflexivity.
Qed.

Lemma stream_acquired_once_witness :
  streamRef (run [EStop; EOnStop (mkMimeSupport true true false false) 0 (5 # 1) "u";
                  EStart deniedEnv None None]
                 (fst (startRecording (sampleEnv "a") None None initial)))
  = Some 0%nat
  /\ startRecording (withUserMedia (sampleEnv "b") (getUserMedia deniedEnv)) None None
       (run [EStop; EOnStop (mkMimeSupport true true false false) 0 (5 # 1) "u"]
            (fst (startRecording (sampleEnv "a") None None initial)))
     = startRecording (sampleEnv "b") None None
         (run [EStop; EOnStop (mkMimeSupport true true false false) 0 (5 # 1) "u"]
              (fst (startRecording (sampleEnv "a") None None initial))).
Proof.
  split.
  - apply (proj1 (stream_acquired_once
                    (fst (startRecording (sampleEnv "a") None None initial))
                    0%nat eq_refl)).
  - apply (proj2 (stream_acquired_once
                    (run [EStop; EOnStop (mkMimeSupport true true false false) 0 (5 # 1) "u"]
                         (fst (startRecording (sampleEnv "a") None None initial)))
                    0%nat eq_refl)).
Defined.

Lemma step_recordings ev h :
  isClearRecordings ev = false ->
  exists more,
    recordings (step ev h) = recordings h ++ more
    /\ (List.length more <= stopEvents [ev])%nat.
Proof.
  intros Hev.
  assert (Hnil : exists more, recordings h = recordings h ++ more
                              /\ (List.length more <= 0)%nat).
  { exists []. now rewrite app_nil_r. }
  destruct ev; try discriminate Hev; simpl.
  - unfold startRecording.
    destruct (isSupported env); [|exact Hnil].
    destruct (isRecording h); [exact Hnil|]. cbn [negb streamRef].
    destruct (streamRef h); [|destruct (getUserMedia env)]; try exact Hnil;
      (destruct (newMediaRecorder env); [exact Hnil|];
       destruct (recorderStart env); exact Hnil).
  - unfold stopRecording. destruct (mediaRecorderRef h); exact Hnil.
  - destruct (nth_error (recorders h) k) as [r|].
    + eexists. split; [reflexivity | simpl; lia].
    + exists []. rewrite app_nil_r. split; [reflexivity | simpl; lia].
  - destruct (nth_error (recorders h) k); exact Hnil.
  - destruct (nth_error (recorders h) k); [|exact Hnil].
    unfold ondataavailable. destruct data as [d|]; [|exact Hnil].
    destruct (0 <? String.length d)%nat; exact Hnil.
  - exact Hnil.
Qed.

(** X22. Sealed segments are never altered or reordered: along a trace
    without clearRecordings the list of recordings only grows at its end,
    by at most one recording per stop event; starts, stops, data and error
    events add nothing. *)
Theorem recordings_only_grow evs h :
  existsb isClearRecordings evs = false ->
  exists more,
    recordings (run evs h) = recordings h ++ more
    /\ (List.length more <= stopEvents evs)%nat.
Proof.
  revert h. induction evs as [|ev evs IH]; intros h Hevs.
  - exists []. simpl. now rewrite app_nil_r.
  - simpl in Hevs. apply orb_false_elim in Hevs. destruct Hevs as [Hev Hevs].
    destruct (step_recordings ev h Hev) as (m1 & E1 & L1).
    destruct (IH (step ev h) Hevs) as (m2 & E2 & L2).
    exists (m1 ++ m2). change (run (ev :: evs) h) with (run evs (step ev h)).
    rewrite E2, E1, app_assoc. split; [reflexivity|].
    rewrite length_app.
    assert (Hs : stopEvents (ev :: evs) = (stopEvents [ev] + stopEvents evs)%nat)
      by (destruct ev; reflexivity).
    lia.
Qed.

Lemma recordings_only_grow_witness :
  exists more,
    recordings (run [EStart (sampleEnv "a") None None; EOnData 0 (Some "x"%string);
                     EOnError 0 None; EStop] initial)
    = recordings initial ++ more
    /\ (List.length more
        <= stopEvents [EStart (sampleEnv "a") None None; EOnData 0 (Some "x"%string);
                       EOnError 0 None; EStop])%nat.
Proof.
  apply (recordings_only_grow
           [EStart (sampleEnv "a") None None; EOnData 0 (Some "x"%string);
            EOnError 0 None; EStop] initial eq_refl).
Defined.

End AudioMore.

(* ================================================================== *)
(** ** Further properties: audio exports and their link to the samples *)
(* ================================================================== *)

Section AudioExportsMore.
Import Js JsString CsvSpec AudioRecorder AudioSpec AudioMoreSpec GazeExports.

(** X23. The file extension guessed for a recording is always one of ogg,
    wav and webm (webm for an empty type), and for a recorder that reports
    no type of its own it names the container that getAudioMimeType chose. *)
Theorem guessAudioExt_names_the_container :
  (forall mime, guessAudioExt mime = "ogg"%string
                \/ guessAudioExt mime = "wav"%string
                \/ guessAudioExt mime = "webm"%string)
  /\ guessAudioExt EmptyString = "webm"%string
  /\ (forall m, getAudioMimeType m EmptyString
                = ("audio/" ++ guessAudioExt (getAudioMimeType m EmptyString))%string).
Proof.
  split; [|split; [reflexivity|]].
  - intros mime. unfold guessAudioExt.
    destruct (String.eqb mime EmptyString); [auto|].
    destruct (includes mime "ogg"); [auto|].
    destruct (includes mime "wav"); auto.
  - intros [has w o v]. unfold getAudioMimeType. simpl.
    destruct has, w, o, v; reflexivity.
Qed.

Lemma getAudioMimeType_not_empty m recMime :
  getAudioMimeType m recMime <> EmptyString.
Proof.
  unfold getAudioMimeType.
  destruct (String.eqb recMime EmptyString) eqn:E; simpl.
  - destruct (hasMediaRecorder m && webm m); [discriminate|].
    destruct (hasMediaRecorder m && ogg m); [discriminate|].
    destruct (hasMediaRecorder m && wav m); discriminate.
  - now apply String.eqb_neq.
Qed.

Lemma step_mime_not_empty ev h :
  Forall (fun r => rmimeType r <> EmptyString) (recordings h) ->
  Forall (fun r => rmimeType r <> EmptyString) (recordings (step ev h)).
Proof.
  intros H. destruct ev; simpl.
  - unfold AudioRecorder.startRecording.
    destruct (isSupported env); [|exact H].
    destruct (isRecording h); [exact H|]. cbn [negb streamRef].
    destruct (streamRef h); [|destruct (getUserMedia env)]; try exact H;
      (destruct (newMediaRecorder env); [exact H|];
       destruct (recorderStart env); exact H).
  - unfold AudioRecorder.stopRecording. destruct (mediaRecorderRef h); exact H.
  - destruct (nth_error (recorders h) k) as [r|]; [|exact H].
    unfold onstop. cbn [recordings]. apply Forall_app. split; [exact H|].
    constructor; [|constructor]. apply getAudioMimeType_not_empty.
  - destruct (nth_error (recorders h) k); exact H.
  - destruct (nth_error (recorders h) k); [|exact H].
    unfold ondataavailable. destruct data as [d|]; [|exact H].
    destruct (0 <? String.length d)%nat; exact H.
  - constructor.
  - exact H.
Qed.

Lemma run_mime_not_empty evs h :
  Forall (fun r => rmimeType r <> EmptyString) (recordings h) ->
  Forall (fun r => rmimeType r <> EmptyString) (recordings (run evs h)).
Proof.
  revert h. induction evs as [|ev evs IH]; intros h H; [exact H|].
  apply (IH (step ev h)). now apply step_mime_not_empty.
Qed.

Lemma audioLogKeys_NoDup : NoDup audioLogKeys.
Proof.
  unfold audioLogKeys.
  repeat (constructor;
          [ simpl; intros H;
            repeat (destruct H as [H|H]; [discriminate H|]); exact H | ]).
  constructor.
Qed.

(** X24. The audio log after any run of the hook: nothing is downloaded
    while there is no recording; otherwise the file is named after the
    session, its header is the eight keys of the row literal (the union of
    the keys of all rows), there is one data line per recording, and no
    recording has an empty mime type. *)
Theorem audio_log_export c evs :
  let h := run evs initial in
  Forall (fun r => rmimeType r <> EmptyString) (recordings h)
  /\ match recordings h with
     | [] => downloadAudioLog c h = None
     | recs =>
         let rows := map (audioLogRow (GazeRecorder.recordingStartTs (GazeRecorder.refs c))
                                      (GazeRecorder.sessionId (GazeRecorder.refs c))) recs in
         downloadAudioLog c h
         = Some (("audio_segments_" ++ GazeRecorder.sessionId (GazeRecorder.refs c)
                    ++ ".csv")%string,
                 table GazeRecorder.csvEscape audioLogKeys rows)
         /\ union_of_keys rows = audioLogKeys
         /\ List.length (GazeRecorder.csvLines rows) = S (List.length recs)
     end.
Proof.
  intros h. split.
  - apply run_mime_not_empty. constructor.
  - unfold downloadAudioLog. destruct (recordings h) as [|r recs]; [reflexivity|].
    cbv zeta. split; [reflexivity|]. split.
    + cbn [map]. apply union_of_homogeneous.
      * apply audioLogKeys_NoDup.
      * intros r' Hr'. apply in_map_iff in Hr'. destruct Hr' as (x & <- & _).
        apply incl_refl.
    + unfold GazeRecorder.csvLines. cbn [List.length]. now rewrite !length_map.
Qed.

(** X25. The segment id joins the two exports, the question id does not.
    Audio can be started only while recording.  While recording, a
    successful startAudioRecording with a non-empty id stores that id and
    hands the question id and the session id to the hook as metadata; a row
    sampled while the audio flag is mirrored carries the id with
    audio_recording 1; and the row of the audio log for the segment sealed
    by the stop event carries the same id.  The sealed recording has no
    metadata, so in that row question_id is blank and session_id is the
    session id current at the download. *)
Theorem segment_id_links_samples_and_audio_log env id questionId c h e g t m stopTs url :
  isSupported env = true ->
  isRecording h = false ->
  caught env h = None ->
  id <> EmptyString ->
  GazeRecorder.recording (GazeRecorder.state c) = true ->
  let c1 := fst (startAudioRecording env id questionId c h) in
  let h1 := snd (startAudioRecording env id questionId c h) in
  let r1 := GazeRecorder.audioEffect (isRecording h1) t (GazeRecorder.refs c1) in
  let h2 := step (EOnStop m (List.length (recorders h)) stopTs url) h1 in
  GazeRecorder.audioSegmentId (GazeRecorder.refs c1) = Some id
  /\ pendingMetaRef h1
     = Some (mkMeta questionId (GazeRecorder.sessionId (GazeRecorder.refs c)))
  /\ get (GazeRecorder.sampleRow e r1 g) "audio_recording" = VInt 1
  /\ get (GazeRecorder.sampleRow e r1 g) "audio_segment_id" = VStr id
  /\ (exists rec,
         recordings h2 = recordings h ++ [rec]
         /\ rmeta rec = None
         /\ forall base sid,
             let row := audioLogRow base sid rec in
             get row "audio_segment_id" = VStr id
             /\ get row "question_id" = VStr EmptyString
             /\ get row "session_id" = VStr sid)
  /\ (forall c0, GazeRecorder.recording (GazeRecorder.state c0) = false ->
                 startAudioRecording env id questionId c0 h = (c0, h)).
Proof.
  intros Hs Hr Hc Hid Hrec c1 h1 r1 h2.
  set (meta := Some (mkMeta questionId (GazeRecorder.sessionId (GazeRecorder.refs c)))).
  destruct (start_idle_success env (Some id) meta h Hs Hr Hc) as (Hret & _).
  destruct (start_idle_success_state env (Some id) meta h Hs Hr Hc) as (s & Hst).
  assert (Hrid : recordingIdOf (Some id) env = id).
  { unfold recordingIdOf. apply String.eqb_neq in Hid. now rewrite Hid. }
  rewrite Hrid in Hret, Hst.
  assert (Hc1 : c1 = GazeRecorder.with_refs c
                       (GazeRecorder.setAudioSegmentId (Some id) (GazeRecorder.refs c))).
  { unfold c1, startAudioRecording. rewrite Hrec, Hs. cbn [negb fst].
    fold meta. rewrite Hret. apply String.eqb_neq in Hid. now rewrite Hid. }
  assert (Hh1 : h1 = fst (AudioRecorder.startRecording env (Some id) meta h)).
  { unfold h1, startAudioRecording. rewrite Hrec, Hs. reflexivity. }
  rewrite Hst in Hh1.
  split; [now rewrite Hc1|].
  split; [now rewrite Hh1|].
  assert (Hr1 : GazeRecorder.audioRecordingRef r1 = true
                /\ GazeRecorder.audioSegmentId r1 = Some id).
  { unfold r1. rewrite Hh1, Hc1. split; reflexivity. }
  destruct Hr1 as [Ha Hseg].
  split; [|split; [|split]].
  - change (get (GazeRecorder.sampleRow e r1 g) "audio_recording")
      with (VInt (if GazeRecorder.audioRecordingRef r1 then 1 else 0)).
    now rewrite Ha.
  - change (get (GazeRecorder.sampleRow e r1 g) "audio_segment_id")
      with (VStr (if GazeRecorder.audioRecordingRef r1
                  then match GazeRecorder.audioSegmentId r1 with
                       | Some s0 => s0
                       | None => EmptyString
                       end
                  else EmptyString)).
    now rewrite Ha, Hseg.
  - eexists. split; [|split].
    + unfold h2. simpl step. rewrite Hh1. cbn [recorders].
      rewrite nth_error_app2, Nat.sub_diag by apply Nat.le_refl.
      cbn [nth_error]. unfold onstop. cbn [recordings]. reflexivity.
    + reflexivity.
    + intros base sid row. unfold row, audioLogRow.
      cbn [rid rmeta pendingIdRef pendingMetaRef recRecordingId option_map].
      unfold or_else. repeat split.
  - intros c0 Hc0. unfold startAudioRecording. now rewrite Hc0.
Qed.

Lemma segment_id_links_samples_and_audio_log_witness :
  exists rec,
    recordings
      (step (EOnStop (mkMimeSupport true true false false) 0 (900 # 1) "blob:1")
            (snd (startAudioRecording (sampleEnv "u") "seg-1" "question_1"
                    RecorderSpec.recordingComponent initial)))
    = [rec]
    /\ rmeta rec = None
    /\ get (audioLogRow None "session" rec) "audio_segment_id" = VStr "seg-1"
    /\ get (audioLogRow None "session" rec) "question_id" = VStr EmptyString.
Proof.
  destruct (segment_id_links_samples_and_audio_log
              (sampleEnv "u") "seg-1" "question_1" RecorderSpec.recordingComponent initial
              (GazeRecorder.mkTickEnv (GazeRecorder.mkWindow 100 50 0) 0
                 (fun _ _ => RecorderSpec.blankContext) "q")
              (GazeRecorder.mkGaze (Fin 1) (Fin 1) 0) 0
              (mkMimeSupport true true false false) (900 # 1) "blob:1"
              eq_refl eq_refl eq_refl ltac:(discriminate) eq_refl)
    as (_ & _ & _ & _ & (rec & Erec & Emeta & Hrow) & _).
  exists rec. split; [exact Erec|]. split; [exact Emeta|].
  destruct (Hrow None "session"%string) as (Hid & Hq & _).
  split; [exact Hid | exact Hq].
Defined.

End AudioExportsMore.

(* ================================================================== *)
(** ** Further properties: questionnaire responses and navigation *)
(* ================================================================== *)

Section PsychometricMore.
Import Js CsvSpec Psychometric.

Lemma hasKey_In k (o : Responses) : hasKey k o = true <-> In k (map fst o).
Proof.
  induction o as [|[k' v'] o IH]; simpl; [split; [discriminate | tauto]|].
  rewrite orb_true_iff, IH, String.eqb_eq. tauto.
Qed.

Lemma keys_replaceValue k v (o : Responses) :
  map fst (replaceValue k v o) = map fst o.
Proof.
  induction o as [|[k' v'] o IH]; simpl; [reflexivity|].
  destruct (String.eqb_spec k' k); simpl; [now subst | now rewrite IH].
Qed.

Lemma lookup_replaceValue q k v (o : Responses) :
  hasKey k o = true ->
  lookup q (replaceValue k v o) = if String.eqb k q then Some v else lookup q o.
Proof.
  induction o as [|[k' v'] o IH]; simpl; [discriminate|].
  intros H. destruct (String.eqb_spec k' k) as [->|Hne]; simpl.
  - now destruct (String.eqb k q).
  - simpl in H. rewrite IH by exact H.
    destruct (String.eqb_spec k' q) as [->|_]; [|reflexivity].
    destruct (String.eqb_spec k q); [congruence | reflexivity].
Qed.

Lemma keys_insertIndex n k v (o : Responses) q :
  In q (map fst (insertIndex n k v o)) <-> q = k \/ In q (map fst o).
Proof.
  induction o as [|[k' v'] o IH]; simpl; [intuition|].
  destruct (arrayIndex k') as [n'|]; [destruct (n <? n')%N|]; simpl;
    rewrite ?IH; intuition.
Qed.

Lemma NoDup_insertIndex n k v (o : Responses) :
  ~ In k (map fst o) -> NoDup (map fst o) -> NoDup (map fst (insertIndex n k v o)).
Proof.
  induction o as [|[k' v'] o IH]; simpl; intros Hk Hnd.
  - constructor; [intros [] | constructor].
  - inversion Hnd as [|? ? Hk' Hnd']; subst.
    destruct (arrayIndex k') as [n'|]; [destruct (n <? n')%N|]; simpl.
    + constructor; [simpl; tauto | exact Hnd].
    + constructor.
      * rewrite keys_insertIndex. intros [-> | H]; [apply Hk; now left | contradiction].
      * apply IH; [tauto | exact Hnd'].
    + constructor; [simpl; tauto | exact Hnd].
Qed.

Lemma lookup_insertIndex q n k v (o : Responses) :
  hasKey k o = false ->
  lookup q (insertIndex n k v o) = if String.eqb k q then Some v else lookup q o.
Proof.
  induction o as [|[k' v'] o IH]; simpl; [reflexivity|].
  intros H. apply orb_false_elim in H. destruct H as [Hne H].
  destruct (arrayIndex k') as [n'|]; [destruct (n <? n')%N|]; simpl; try reflexivity.
  rewrite IH by exact H.
  destruct (String.eqb_spec k' q) as [->|_]; [|reflexivity].
  rewrite String.eqb_sym in Hne. now rewrite Hne.
Qed.

Lemma lookup_app_new q k v (o : Responses) :
  lookup q (o ++ [(k, v)]) = match lookup q o with
                             | Some x => Some x
                             | None => if String.eqb k q then Some v else None
                             end.
Proof.
  induction o as [|[k' v'] o IH]; simpl; [reflexivity|].
  now destruct (String.eqb k' q).
Qed.

Lemma lookup_missing q (o : Responses) : hasKey q o = false -> lookup q o = None.
Proof.
  induction o as [|[k' v'] o IH]; simpl; [reflexivity|].
  intros H. apply orb_false_elim in H. destruct H as [-> H]. now apply IH.
Qed.

Lemma keys_put k v (o : Responses) q :
  In q (map fst (put k v o)) <-> q = k \/ In q (map fst o).
Proof.
  unfold put. destruct (hasKey k o) eqn:E.
  - rewrite keys_replaceValue. apply hasKey_In in E. split; [tauto|].
    intros [-> | H]; assumption.
  - destruct (arrayIndex k) as [n|]; [apply keys_insertIndex|].
    rewrite map_app, in_app_iff. simpl. intuition.
Qed.

Lemma NoDup_put k v (o : Responses) : NoDup (map fst o) -> NoDup (map fst (put k v o)).
Proof.
  intros Hnd. unfold put. destruct (hasKey k o) eqn:E.
  - now rewrite keys_replaceValue.
  - assert (Hk : ~ In k (map fst o)).
    { intros H. apply hasKey_In in H. congruence. }
    destruct (arrayIndex k) as [n|]; [now apply NoDup_insertIndex|].
    rewrite map_app. simpl. apply NoDup_app; [exact Hnd | | ].
    + constructor; [intros [] | constructor].
    + intros x Hx [<- | []]. contradiction.
Qed.

Lemma lookup_put q k v (o : Responses) :
  lookup q (put k v o) = if String.eqb k q then Some v else lookup q o.
Proof.
  unfold put. destruct (hasKey k o) eqn:E.
  - now apply lookup_replaceValue.
  - destruct (arrayIndex k) as [n|]; [now apply lookup_insertIndex|].
    rewrite lookup_app_new.
    destruct (String.eqb_spec k q) as [->|_].
    + now rewrite (lookup_missing q o E).
    + now destruct (lookup q o).
Qed.

Lemma find_snoc {A} (f : A -> bool) (l : list A) (x : A) :
  find f (l ++ [x]) = match find f l with
                      | Some y => Some y
                      | None => if f x then Some x else None
                      end.
Proof.
  induction l as [|y l IH]; simpl; [reflexivity|].
  now destruct (f y).
Qed.

Lemma answerAll_cons a answers s :
  answerAll (a :: answers) s
  = answerAll answers
      (onPsychometricAnswer (a_question a) (a_index a) (a_text a) (a_now a) s).
Proof. reflexivity. Qed.

Lemma answerAll_active answers s :
  psychometricActive s = true ->
  psychometricActive (answerAll answers s) = true
  /\ psychometricStartTs (answerAll answers s) = psychometricStartTs s
  /\ sessionId (answerAll answers s) = sessionId s
  /\ (NoDup (map fst (psychometricResponses s)) ->
      NoDup (map fst (psychometricResponses (answerAll answers s))))
  /\ (forall q, In q (map fst (psychometricResponses (answerAll answers s)))
                <-> In q (map a_question answers)
                    \/ In q (map fst (psychometricResponses s)))
  /\ forall q,
      lookup q (psychometricResponses (answerAll answers s))
      = match lastAnswer q answers with
        | Some a => Some (responseOf a)
        | None => lookup q (psychometricResponses s)
        end.
Proof.
  revert s. induction answers as [|a answers IH]; intros s Ha.
  - simpl. repeat split; auto. tauto.
  - rewrite answerAll_cons.
    set (s1 := onPsychometricAnswer (a_question a) (a_index a) (a_text a) (a_now a) s).
    assert (Hs1 : s1 = mkAppState true
                         (put (a_question a) (responseOf a) (psychometricResponses s))
                         (psychometricStartTs s) (sessionId s)).
    { unfold s1, onPsychometricAnswer. now rewrite Ha. }
    destruct (IH s1) as (H1 & H2 & H3 & H4 & H5 & H6); [now rewrite Hs1|].
    split; [exact H1|]. split; [now rewrite H2, Hs1|]. split; [now rewrite H3, Hs1|].
    split; [|split].
    + intros Hnd. apply H4. rewrite Hs1. cbn [psychometricResponses].
      now apply NoDup_put.
    + intros q. rewrite H5, Hs1. cbn [psychometricResponses map].
      rewrite keys_put. simpl. intuition.
    + intros q. rewrite H6, Hs1. cbn [psychometricResponses].
      unfold lastAnswer. cbn [rev]. rewrite find_snoc.
      destruct (find (fun a0 => String.eqb (a_question a0) q) (rev answers));
        [reflexivity|].
      rewrite lookup_put. now destruct (String.eqb (a_question a) q).
Qed.

Lemma answerAll_inactive answers s1 :
  psychometricActive s1 = false -> answerAll answers s1 = s1.
Proof.
  intros Hs1. induction answers as [|a answers IH]; [reflexivity|].
  rewrite answerAll_cons. unfold onPsychometricAnswer. rewrite Hs1. exact IH.
Qed.

Lemma answered_count now s0 answers :
  let s := answerAll answers (startPsychometric now s0) in
  List.length (psychometricResponses s)
  = List.length (first_seen (map a_question answers)).
Proof.
  intros s.
  destruct (answerAll_active answers (startPsychometric now s0) eq_refl)
    as (_ & _ & _ & Hnd & Hin & _).
  fold s in Hnd, Hin.
  rewrite <- (length_map fst). apply Permutation_length.
  apply NoDup_Permutation.
  - apply Hnd. constructor.
  - apply first_seen_NoDup.
  - intros q. rewrite Hin, first_seen_In. simpl. tauto.
Qed.

(** X26. Responses have map semantics: during a test each answered
    question is kept once and holds the last answer given to it, so the
    number of kept responses is the number of distinct questions answered;
    outside a test answers are ignored. *)
Theorem last_answer_wins now s0 answers :
  let s := answerAll answers (startPsychometric now s0) in
  NoDup (map fst (psychometricResponses s))
  /\ (forall q, In q (map fst (psychometricResponses s))
                <-> In q (map a_question answers))
  /\ (forall q, lookup q (psychometricResponses s)
                = option_map responseOf (lastAnswer q answers))
  /\ List.length (psychometricResponses s)
     = List.length (first_seen (map a_question answers))
  /\ (forall s1, psychometricActive s1 = false -> answerAll answers s1 = s1).
Proof.
  intros s.
  destruct (answerAll_active answers (startPsychometric now s0) eq_refl)
    as (_ & _ & _ & Hnd & Hin & Hl).
  fold s in Hnd, Hin, Hl. split; [|split; [|split; [|split]]].
  - apply Hnd. constructor.
  - intros q. rewrite Hin. simpl. tauto.
  - intros q. rewrite Hl. now destruct (lastAnswer q answers).
  - apply answered_count.
  - apply answerAll_inactive.
Qed.

Lemma last_answer_wins_witness :
  answerAll [mkAnswer "q1" (VInt 2) (VStr "often") 5] (mkAppState false [] None "s")
  = mkAppState false [] None "s".
Proof.
  apply (proj2 (proj2 (proj2 (proj2
           (last_answer_wins 0 (mkAppState false [] None "s")
              [mkAnswer "q1" (VInt 2) (VStr "often") 5]))))).
  reflexivity.
Defined.

Lemma psychometricKeys_NoDup : NoDup psychometricKeys.
Proof.
  unfold psychometricKeys.
  repeat (constructor;
          [ simpl; intros H;
            repeat (destruct H as [H|H]; [discriminate H|]); exact H | ]).
  constructor.
Qed.

(** X27. Stopping a psychometric test clears the flag and exports the
    answers: with no answer nothing is downloaded; otherwise the file
    psychometric_responses.csv has the five keys of the row literal as
    header and one row per distinct question answered. *)
Theorem psychometric_export now s0 answers :
  let s := answerAll answers (startPsychometric now s0) in
  psychometricActive (snd (stopPsychometric s)) = false
  /\ List.length (psychometricRows s)
     = List.length (first_seen (map a_question answers))
  /\ match answers with
     | [] => fst (stopPsychometric s) = None
     | _ => fst (stopPsychometric s)
            = Some ("psychometric_responses.csv"%string,
                    table App.csvEscape psychometricKeys (psychometricRows s))
     end.
Proof.
  intros s.
  pose proof (answered_count now s0 answers) as Hlen. cbv zeta in Hlen. fold s in Hlen.
  split; [reflexivity|]. split.
  - unfold psychometricRows. now rewrite length_map.
  - destruct answers as [|a answers]; [reflexivity|].
    unfold stopPsychometric, downloadPsychometricCsv. cbn [fst].
    destruct (psychometricRows s) as [|r rows] eqn:Er.
    + exfalso. apply (f_equal (@List.length _)) in Er.
      unfold psychometricRows in Er. rewrite length_map in Er.
      simpl in Er, Hlen. lia.
    + unfold App.downloadCsv, App.csvLines, table. rewrite App_csvHeader_union.
      assert (Hall : forall r', In r' (r :: rows) -> Object_keys r' = psychometricKeys).
      { intros r' Hr'. rewrite <- Er in Hr'. unfold psychometricRows in Hr'.
        apply in_map_iff in Hr'. destruct Hr' as (kv & <- & _). reflexivity. }
      rewrite union_of_homogeneous.
      * rewrite (Hall r) by now left. reflexivity.
      * rewrite (Hall r) by now left. apply psychometricKeys_NoDup.
      * intros r' Hr'. rewrite (Hall r') by now right.
        rewrite (Hall r) by now left. apply incl_refl.
Qed.

End PsychometricMore.

Section QuestionScreenMore.
Import Js QuestionScreen.

Lemma nav_in_bounds n ev idx : 0 < n -> 0 <= idx < n -> 0 <= nav n ev idx < n.
Proof.
  intros Hn Hidx. destruct ev; simpl.
  - apply Z.mod_pos_bound. lia.
  - unfold handleBack. destruct (0 <? idx); lia.
Qed.

Lemma nexts n k idx :
  0 < n -> navigate n (repeat Next k) idx = (idx + Z.of_nat k) mod n \/ k = O.
Proof.
  intros Hn. destruct k as [|k]; [now right|]. left.
  revert idx. induction k as [|k IH]; intros idx.
  - reflexivity.
  - change (navigate n (repeat Next (S (S k))) idx)
      with (navigate n (repeat Next (S k)) ((idx + 1) mod n)).
    rewrite IH, Zplus_mod_idemp_l. f_equal. lia.
Qed.

(** X28. With a non-empty question list the index never leaves the list,
    whatever sequence of Next and Back is pressed; Next asks for a restart
    exactly when it wraps to the first question; and pressing Next as many
    times as there are questions comes back to the same question. *)
Theorem question_index_stays_in_range n idx :
  0 < n -> 0 <= idx < n ->
  (forall evs, 0 <= navigate n evs idx < n)
  /\ (snd (handleNext n idx) = true <-> fst (handleNext n idx) = 0)
  /\ navigate n (repeat Next (Z.to_nat n)) idx = idx.
Proof.
  intros Hn Hidx. split; [|split].
  - intros evs. revert idx Hidx. induction evs as [|ev evs IH]; intros idx Hidx.
    + exact Hidx.
    + apply (IH (nav n ev idx)). now apply nav_in_bounds.
  - unfold handleNext. simpl. rewrite Z.eqb_eq. split.
    + intros ->. replace (n - 1 + 1) with n by lia. apply Z.mod_same. lia.
    + intros H. apply Z.mod_divide in H; [|lia]. destruct H as [q Hq].
      assert (q = 1) by nia. lia.
  - destruct (nexts n (Z.to_nat n) idx Hn) as [H|H]; [|lia].
    rewrite H, Z2Nat.id by lia.
    rewrite <- Zplus_mod_idemp_r, Z.mod_same, Z.add_0_r by lia.
    apply Z.mod_small. exact Hidx.
Qed.

Lemma question_index_stays_in_range_witness :
  navigate 3 (repeat Next (Z.to_nat 3)) 1 = 1.
Proof.
  apply (proj2 (proj2 (question_index_stays_in_range 3 1 ltac:(lia) ltac:(lia)))).
Defined.

(** X29. The delay given to the options timer is always a finite number
    that is not negative: a question's own finite delay when that is 0 or
    more, exactly 0 when it is negative, and 3000 when the question has
    none or a non-finite one. *)
Theorem option_delay_is_finite_and_not_negative (d : option number) :
  exists q, optionDelay d = Fin q /\ (0 <= q)%Q
            /\ (match d with
                | Some (Fin x) => ((0 <= x)%Q -> q = x) /\ ((x < 0)%Q -> q = 0%Q)
                | _ => q = inject_Z 3000
                end).
Proof.
  unfold optionDelay, Math_max.
  destruct d as [[x| | |]|];
    try (exists (inject_Z 3000); split; [reflexivity|]; split;
         [discriminate | reflexivity]).
  destruct (Qle_bool 0 x) eqn:E.
  - apply Qle_bool_iff in E. exists x. split; [reflexivity|]. split; [exact E|].
    split; [reflexivity | intros; lra].
  - apply Qle_bool_false in E. exists 0%Q. split; [reflexivity|].
    split; [discriminate|]. split; [intros; lra | reflexivity].
Qed.

End QuestionScreenMore.
